(** * News-article agent: ingestion and retrieval pipeline

    A shallow embedding of the TypeScript sources

      - [utils/helpers.ts]             ([isValidUrl])
      - [services/geminiService.ts]    ([generateText], [cleanAndStructureHtml],
                                        [generateEmbeddings])
      - [processing/contentProcessor.ts] ([fetchUrlContent], [processUrl])
      - [services/pineconeService.ts]  ([vectorExists], [upsertVector],
                                        [querySimilarVectors])
      - [ingestion/ingestionService.ts] ([handleUrlIngestion])
      - [ingestion/kafkaConsumer.ts]   ([handleKafkaMessage], the expiry timer)
      - [services/ragService.ts]       ([handleQuery], [handleUrlQuery],
                                        [handleKnowledgeBaseQuery])

    An [async] function becomes a computation in the monad [M]: it takes the
    world (module-level variables, the vector index, the behaviour of the
    remote services, the trace of calls made so far) and gives back either a
    value or a thrown JavaScript value, with the new world.  [await] is
    sequencing.  Calls to [logger] and readings of the clock ([Date.now()],
    used for log lines only) are left out: they do not throw and nothing
    depends on them. *)

From Stdlib Require Import ZArith List Floats.PrimFloat.
From stdpp Require Import base option list gmap strings pretty.

Local Open Scope Z_scope.

(** ** JavaScript strings *)

(** A string is its sequence of UTF-16 code units; [length] and [substring]
    count code units. *)
Definition jsstring := list N.

(** An ASCII literal of the source. *)
Fixpoint lit (s : string) : jsstring :=
  match s with
  | EmptyString => []
  | String a s' => Ascii.N_of_ascii a :: lit s'
  end.

(** [s.substring(0, n)] for [0 <= n]. *)
Definition substring0 (n : Z) (s : jsstring) : jsstring := take (Z.to_nat n) s.

(** [!s] on a string. *)
Definition falsy (s : jsstring) : bool :=
  match s with [] => true | _ => false end.

(** [s || d] on a string. *)
Definition or_default (s d : jsstring) : jsstring :=
  if falsy s then d else s.

(** [x || d] where [x] may be [undefined]. *)
Definition opt_or_default (x : option jsstring) (d : jsstring) : jsstring :=
  match x with
  | Some s => or_default s d
  | None => d
  end.

(** ** Thrown values *)

Inductive exn :=
| JsError (message : jsstring)      (* an instance of [Error] *)
| JsOther (repr : jsstring).        (* anything else; [repr] is [String(v)] *)

(** [e instanceof Error ? e.message : String(e)] *)
Definition message_or_string (e : exn) : jsstring :=
  match e with
  | JsError m => m
  | JsOther r => r
  end.

(** [e instanceof Error ? e.message : 'Unknown error'] *)
Definition message_or_unknown (e : exn) : jsstring :=
  match e with
  | JsError m => m
  | JsOther _ => lit "Unknown error"
  end.

Inductive Result (A : Type) :=
| Ok (a : A)
| Throw (e : exn).
Arguments Ok {A} a.
Arguments Throw {A} e.
Arguments lit : simpl never.

(** ** Data model ([types/index.ts]) *)

Definition vector := list float.

Record Article := mkArticle {
  a_title : jsstring;
  a_content : jsstring;
  a_url : jsstring;
  a_date : jsstring
}.

(** [content?: string]: [None] is an object without the key. *)
Record Source := mkSource {
  title : jsstring;
  url : jsstring;
  date : jsstring;
  content : option jsstring
}.

Record ApiResponse := mkApiResponse {
  answer : jsstring;
  sources : list Source
}.

Record QueryPayload := mkQueryPayload { query : jsstring }.

(** [PineconeRecord<RecordMetadata & Article>] *)
Record PineconeRecord := mkRecord {
  r_id : jsstring;
  r_values : vector;
  r_metadata : Article
}.

(** One element of [queryResponse.matches]. *)
Record ScoredVector := mkMatch {
  m_id : jsstring;
  m_score : float;
  m_metadata : option Article
}.

(** ** The outside world *)

(** What [fetch] resolves to: [ok], [status], and what [response.text()]
    gives. *)
Record HttpResponse := mkResponse {
  resp_ok : bool;
  resp_status : Z;
  resp_text : Result jsstring
}.

(** Calls that leave the process, in the order they are made. *)
Inductive Event :=
| EvFetch (u : jsstring)                             (* fetch(url, ...) *)
| EvGenerateContent (json_mode : bool) (prompt : jsstring)
                                                     (* textModel.generateContent *)
| EvEmbedContent (text : jsstring)                   (* embedModel.embedContent *)
| EvIndexFetch (id : jsstring)                       (* index.fetch([id]) *)
| EvIndexUpsert (r : PineconeRecord)                 (* index.upsert([record]) *)
| EvIndexQuery (v : vector) (topK : Z)               (* index.query(...) *)
| EvSetTimeout (ms : Z).                             (* an awaited setTimeout *)

(** The world of one process.  The first two fields are the module-level
    variables of [pineconeService.ts] and [kafkaConsumer.ts]; [index] is the
    content of the Pinecone index.  The remote services are scripted: each
    list holds what the next calls of one kind will answer, and a call
    consumes the head.  [trace] records the calls made, oldest first. *)
Record World := mkWorld {
  pineconeClient : bool;                   (* [false] is [null] *)
  recentlyProcessedUrls : gset jsstring;
  index : gmap jsstring PineconeRecord;
  net : list (Result HttpResponse);
  text_model : list (Result jsstring);
  embed_model : list (Result (option vector));
  fetch_faults : list (option exn);
  upsert_faults : list (option exn);
  query_replies : list (Result (option (list ScoredVector)));
  trace : list Event
}.

Definition set_cache (c : gset jsstring) (w : World) : World :=
  mkWorld (pineconeClient w) c (index w) (net w) (text_model w)
    (embed_model w) (fetch_faults w) (upsert_faults w) (query_replies w)
    (trace w).

Definition set_index (i : gmap jsstring PineconeRecord) (w : World) : World :=
  mkWorld (pineconeClient w) (recentlyProcessedUrls w) i (net w)
    (text_model w) (embed_model w) (fetch_faults w) (upsert_faults w)
    (query_replies w) (trace w).

Definition set_net (s : list (Result HttpResponse)) (w : World) : World :=
  mkWorld (pineconeClient w) (recentlyProcessedUrls w) (index w) s
    (text_model w) (embed_model w) (fetch_faults w) (upsert_faults w)
    (query_replies w) (trace w).

Definition set_text_model (s : list (Result jsstring)) (w : World) : World :=
  mkWorld (pineconeClient w) (recentlyProcessedUrls w) (index w) (net w) s
    (embed_model w) (fetch_faults w) (upsert_faults w) (query_replies w)
    (trace w).

Definition set_embed_model (s : list (Result (option vector))) (w : World)
  : World :=
  mkWorld (pineconeClient w) (recentlyProcessedUrls w) (index w) (net w)
    (text_model w) s (fetch_faults w) (upsert_faults w) (query_replies w)
    (trace w).

Definition set_fetch_faults (s : list (option exn)) (w : World) : World :=
  mkWorld (pineconeClient w) (recentlyProcessedUrls w) (index w) (net w)
    (text_model w) (embed_model w) s (upsert_faults w) (query_replies w)
    (trace w).

Definition set_upsert_faults (s : list (option exn)) (w : World) : World :=
  mkWorld (pineconeClient w) (recentlyProcessedUrls w) (index w) (net w)
    (text_model w) (embed_model w) (fetch_faults w) s (query_replies w)
    (trace w).

Definition set_query_replies
    (s : list (Result (option (list ScoredVector)))) (w : World) : World :=
  mkWorld (pineconeClient w) (recentlyProcessedUrls w) (index w) (net w)
    (text_model w) (embed_model w) (fetch_faults w) (upsert_faults w) s
    (trace w).

(** Append one call to the trace. *)
Definition record_event (ev : Event) (w : World) : World :=
  mkWorld (pineconeClient w) (recentlyProcessedUrls w) (index w) (net w)
    (text_model w) (embed_model w) (fetch_faults w) (upsert_faults w)
    (query_replies w) (trace w ++ [ev]).

(** ** The monad of [async] functions *)

Definition M (A : Type) : Type := World -> Result A * World.

Definition ret {A} (a : A) : M A := fun w => (Ok a, w).

Definition throw {A} (e : exn) : M A := fun w => (Throw e, w).

Definition bind {A B} (m : M A) (k : A -> M B) : M B :=
  fun w =>
    match m w with
    | (Ok a, w') => k a w'
    | (Throw e, w') => (Throw e, w')
    end.

(** [try { body } catch (e) { handler }] *)
Definition try_catch {A} (body : M A) (handler : exn -> M A) : M A :=
  fun w =>
    match body w with
    | (Ok a, w') => (Ok a, w')
    | (Throw e, w') => handler e w'
    end.

(** [let x; try { x = await m } catch (e) { ... }]: the outcome of [m] as a
    value, for the caller to branch on. *)
Definition attempt {A} (m : M A) : M (Result A) :=
  fun w => let (r, w') := m w in (Ok r, w').

#[global] Instance M_ret : MRet M := @ret.
#[global] Instance M_bind : MBind M := fun A B k m => bind m k.

(** One scripted answer: the head of the script, or [dflt] once the script
    has run out. *)
Definition next {A} (script : list A) (dflt : A) : A * list A :=
  match script with
  | [] => (dflt, [])
  | x :: rest => (x, rest)
  end.

Definition of_result {A} (r : Result A) : M A := fun w => (r, w).

(** [await fetch(url, { headers })] *)
Definition fetch (u : jsstring) : M HttpResponse :=
  fun w =>
    let (r, rest) := next (net w) (Throw (JsError (lit "fetch failed"))) in
    (r, set_net rest (record_event (EvFetch u) w)).

(** [(await textModel.generateContent(request)).response.text()] *)
Definition textModel_generateContent (json_mode : bool) (prompt : jsstring)
  : M jsstring :=
  fun w =>
    let (r, rest) :=
      next (text_model w) (Throw (JsError (lit "model unavailable"))) in
    (r, set_text_model rest (record_event (EvGenerateContent json_mode prompt) w)).

(** [(await embedModel.embedContent(text)).embedding.values]; [None] is
    [undefined]. *)
Definition embedModel_embedContent (text : jsstring) : M (option vector) :=
  fun w =>
    let (r, rest) :=
      next (embed_model w) (Throw (JsError (lit "model unavailable"))) in
    (r, set_embed_model rest (record_event (EvEmbedContent text) w)).

(** [await index.fetch([id])]: the record under [id], if any. *)
Definition index_fetch (id : jsstring) : M (option PineconeRecord) :=
  fun w =>
    let (f, rest) := next (fetch_faults w) None in
    let w' := set_fetch_faults rest (record_event (EvIndexFetch id) w) in
    match f with
    | Some e => (Throw e, w')
    | None => (Ok (index w !! id), w')
    end.

(** [await index.upsert([record])]: writes the record under its id,
    replacing what was there. *)
Definition index_upsert (record : PineconeRecord) : M unit :=
  fun w =>
    let (f, rest) := next (upsert_faults w) None in
    let w' := set_upsert_faults rest (record_event (EvIndexUpsert record) w) in
    match f with
    | Some e => (Throw e, w')
    | None => (Ok tt, set_index (<[r_id record := record]> (index w)) w')
    end.

(** [await index.query({ vector, topK, includeMetadata: true })], giving
    [queryResponse.matches] ([None] is [undefined]).  The ranking is the
    store's. *)
Definition index_query (v : vector) (topK : Z)
  : M (option (list ScoredVector)) :=
  fun w =>
    let (r, rest) := next (query_replies w) (Ok (Some [])) in
    (r, set_query_replies rest (record_event (EvIndexQuery v topK) w)).

(** [pineconeClient] is not [null] *)
Definition client_ready : M bool :=
  fun w => (Ok (pineconeClient w), w).

(** [await new Promise(resolve => setTimeout(resolve, delay))] *)
Definition setTimeout (delay : Z) : M unit :=
  fun w => (Ok tt, record_event (EvSetTimeout delay) w).

(** ** Prompt templates *)

(** The double-quote character of a template. *)
Definition dquote : jsstring := [34%N].

(** [a.join(sep)] *)
Fixpoint join (sep : jsstring) (parts : list jsstring) : jsstring :=
  match parts with
  | [] => []
  | [p] => p
  | p :: rest => p ++ sep ++ join sep rest
  end.

(** The prompt of [cleanAndStructureHtml]. *)
Definition structuring_prompt (truncatedHtml : jsstring) : jsstring :=
  lit "
    You are an expert web scraper and data extractor. Analyze the following HTML content and extract the main article details.
    Return ONLY a single, valid JSON object containing the following fields:
    - "
    ++ dquote
    ++ lit "title"
    ++ dquote
    ++ lit ": The main title of the article. If no title is found, use an empty string "
    ++ dquote
    ++ dquote
    ++ lit ".
    - "
    ++ dquote
    ++ lit "content"
    ++ dquote
    ++ lit ": The primary text content of the article. Clean the text by removing all HTML tags, navigation menus, advertisements, sidebars, footers, and other boilerplate content. Focus solely on the paragraphs that form the body of the article. If no content is found, use an empty string "
    ++ dquote
    ++ dquote
    ++ lit ".
    - "
    ++ dquote
    ++ lit "date"
    ++ dquote
    ++ lit ": The publication date of the article in "
    ++ dquote
    ++ lit "YYYY-MM-DD"
    ++ dquote
    ++ lit " format. If the date cannot be determined, use an empty string "
    ++ dquote
    ++ dquote
    ++ lit ".
    
    Strictly adhere to the JSON format. Do not include any introductory text, explanations, or markdown formatting like ```json before or after the JSON object.
    
    HTML Content to analyze:
    ```html
    "
    ++ truncatedHtml
    ++ lit "
    ```
    ".

(** The prompt of [handleUrlQuery]. *)
Definition summary_prompt (article : Article) : jsstring :=
  lit "
    You are analyzing a web article. Please provide a comprehensive summary of the main points.

    Article Title: "
    ++ a_title article
    ++ lit "
    Article URL: "
    ++ a_url article
    ++ lit "
    Article Date: "
    ++ or_default (a_date article) (lit "Unknown")
    ++ lit "

    Article Content:
    "
    ++ a_content article
    ++ lit "

    Provide a clear, factual summary of this article. Focus on the key information, main arguments, and important details.
    ".

(** One entry of [sourcesContext] in [handleKnowledgeBaseQuery]. *)
Definition source_context (index : nat) (source : Source) : jsstring :=
  lit "Source "
    ++ lit (pretty (index + 1)%nat)
    ++ lit ":
      Title: "
    ++ title source
    ++ lit "
      URL: "
    ++ url source
    ++ lit "
      Date: "
    ++ or_default (date source) (lit "Unknown")
    ++ lit "
      Content: "
    ++ opt_or_default (content source) (lit "Unknown")
    ++ lit "
      ---".

(** The prompt of [handleKnowledgeBaseQuery]. *)
Definition grounding_prompt (query sourcesContext : jsstring) : jsstring :=
  lit "
      You are answering a question based on provided sources and content. 
      Only use information from these sources and content to formulate your answer.

      QUESTION: "
    ++ query
    ++ lit "

      INFORMATION:
      "
    ++ sourcesContext
    ++ lit "

      Instructions:
      1. Answer based ONLY on the information in the provided sources.
      2. If the sources don't contain enough information to answer fully, acknowledge the limitations.
      3. Do not make up or infer information not present in the sources.
      4. Provide a clear answer.
    ".

(** [s.length] *)
Definition jslength (s : jsstring) : Z := Z.of_nat (length s).

(** [s.length > max ? s.substring(0, max) : s] *)
Definition truncate_to (max : Z) (s : jsstring) : jsstring :=
  if max <? jslength s then substring0 max s else s.

(** What [JSON.parse] gives in [cleanAndStructureHtml], read at the declared
    type [{ title: string; content: string; date: string }]; [None] is a
    missing key. *)
Record StructuredJson := mkStructured {
  j_title : option jsstring;
  j_content : option jsstring;
  j_date : option jsstring
}.

(** What [JSON.parse] gives in [handleKafkaMessage], as far as the consumer
    reads it: [messageJson.value.url] (absent when [messageJson.value] is
    falsy or has no such member) and [messageJson.url], both strings as
    [let url: string] declares. *)
Record MessageJson := mkMessageJson {
  mj_value_url : option jsstring;
  mj_url : option jsstring
}.

(** The part of [EachMessagePayload] the handler reads; [None] is a [null]
    value, [Some s] a buffer whose [toString()] is [s]. *)
Record KafkaMessage := mkKafkaMessage {
  km_offset : jsstring;
  km_value : option jsstring
}.

(** [x] is truthy *)
Definition truthy (x : option jsstring) : bool :=
  match x with
  | Some s => negb (falsy s)
  | None => false
  end.

Definition MAX_HTML_LENGTH : Z := 120000.
Definition MAX_EMBED_TEXT_LENGTH : Z := 12000.
Definition MAX_RETRIES : Z := 2.
Definition MAX_CACHE_SIZE : Z := 1000.

(** How the loop of [upsertVector] is left. *)
Inductive LoopExit :=
| Returned                              (* [return] inside the loop *)
| Fallthrough (lastError : option exn)  (* condition false, or [break] *)
| OutOfFuel.

(** The platform's [URL] and [JSON] classes.  [URL_protocol s] is
    [new URL(s).protocol], [None] when the constructor throws.  The two
    parsers are [JSON.parse] seen through the types above, [None] when it
    throws or yields [null] (reading a member of [null] throws inside the
    same [try]). *)
Class Platform := {
  URL_protocol : jsstring -> option jsstring;
  JSON_parse_structured : jsstring -> option StructuredJson;
  JSON_parse_message : jsstring -> option MessageJson
}.

Section Program.

Context {P : Platform}.

(** *** [utils/helpers.ts] *)

Definition isValidUrl (u : jsstring) : bool :=
  if falsy u then false
  else
    match URL_protocol u with
    | Some protocol =>
        bool_decide (protocol = lit "http:")
        || bool_decide (protocol = lit "https:")
    | None => false
    end.

(** *** [services/geminiService.ts] *)

Definition generateText (prompt : jsstring) : M jsstring :=
  try_catch
    (textModel_generateContent false prompt)
    (fun error =>
       throw (JsError (lit "Gemini text generation failed: "
                       ++ message_or_unknown error))).

Definition cleanAndStructureHtml (htmlContent u : jsstring)
  : M (option Article) :=
  let truncatedHtml := truncate_to MAX_HTML_LENGTH htmlContent in
  let prompt := structuring_prompt truncatedHtml in
  try_catch
    (responseText ← textModel_generateContent true prompt;
     if falsy responseText then ret None
     else
       match JSON_parse_structured responseText with
       | None => ret None
       | Some jsonData =>
           ret (Some {|
             a_title := opt_or_default (j_title jsonData) (lit "Untitled Article");
             a_content := opt_or_default (j_content jsonData) [];
             a_date := opt_or_default (j_date jsonData) [];
             a_url := u |})
       end)
    (fun _ => ret None).

Definition generateEmbeddings (text : jsstring) : M vector :=
  let truncatedText := truncate_to MAX_EMBED_TEXT_LENGTH text in
  try_catch
    (embedding ← embedModel_embedContent truncatedText;
     match embedding with
     | None =>
         throw (JsError (lit
           "Gemini embedding API returned success but no embedding values."))
     | Some values => ret values
     end)
    (fun error =>
       throw (JsError (lit "Gemini embedding generation failed: "
                       ++ message_or_unknown error))).

(** *** [processing/contentProcessor.ts] *)

Definition fetchUrlContent (u : jsstring) : M (option jsstring) :=
  try_catch
    (response ← fetch u;
     if negb (resp_ok response) then ret None
     else
       html ← of_result (resp_text response);
       ret (Some html))
    (fun _ => ret None).

Definition processUrl (u : jsstring) : M (option (Article * vector)) :=
  try_catch
    (if falsy u || negb (isValidUrl u) then ret None
     else
       htmlContent ← fetchUrlContent u;
       if negb (truthy htmlContent) then ret None
       else
         article ← cleanAndStructureHtml (default [] htmlContent) u;
         match article with
         | None => ret None
         | Some article =>
             let contentForEmbedding :=
               a_title article ++ lit ". "
               ++ substring0 8000 (a_content article) in
             vector ← generateEmbeddings contentForEmbedding;
             ret (Some (article, vector))
         end)
    (fun _ => ret None).

(** *** [services/pineconeService.ts] *)

Definition vectorExists (id : jsstring) : M bool :=
  client ← client_ready;
  if negb client then
    throw (JsError (lit
      "Pinecone client not initialized. Call initializePinecone() first."))
  else
    try_catch
      (response ← index_fetch id;
       ret (bool_decide (is_Some response)))
      (fun _ => ret false).

(** The [while (retryCount <= MAX_RETRIES)] loop of [upsertVector]; one unit
    of [fuel] per iteration. *)
Fixpoint upsert_loop (fuel : nat) (record : PineconeRecord)
    (retryCount : Z) (lastError : option exn) : M LoopExit :=
  if negb (retryCount <=? MAX_RETRIES) then ret (Fallthrough lastError)
  else
    match fuel with
    | O => ret OutOfFuel
    | S fuel' =>
        try_catch
          (index_upsert record;;
           ret Returned)
          (fun error =>
             let lastError := Some error in
             let retryCount := retryCount + 1 in
             if retryCount <=? MAX_RETRIES then
               let delay := 2 ^ retryCount * 1000 in
               setTimeout delay;;
               upsert_loop fuel' record retryCount lastError
             else ret (Fallthrough lastError))
    end.

Definition upsertVector_fuel (fuel : nat) (id : jsstring) (v : vector)
    (metadata : Article) : M unit :=
  client ← client_ready;
  if negb client then
    throw (JsError (lit
      "Pinecone client not initialized. Call initializePinecone() first."))
  else
    exists_ ← vectorExists id;
    if (exists_ : bool) then ret tt
    else
      let record := {|
        r_id := id;
        r_values := v;
        r_metadata := {|
          a_title := a_title metadata;
          a_content := a_content metadata;
          a_url := a_url metadata;
          a_date := a_date metadata |} |} in
      exit ← upsert_loop fuel record 0 None;
      match exit with
      | Returned => ret tt
      | Fallthrough lastError =>
          throw (JsError (lit "Failed to upsert vector to Pinecone: "
                          ++ match lastError with
                             | Some e => message_or_string e
                             | None => lit "null"
                             end))
      | OutOfFuel => throw (JsOther (lit "loop fuel exhausted"))
      end.

(** The loop runs at most [MAX_RETRIES + 1] times (see
    [upsert_loop_fuel]). *)
Definition upsertVector : jsstring -> vector -> Article -> M unit :=
  upsertVector_fuel (Z.to_nat (MAX_RETRIES + 1)).

Definition querySimilarVectors (v : vector) (topK : Z) : M (list Source) :=
  client ← client_ready;
  if negb client then
    throw (JsError (lit "Pinecone client not initialized."))
  else
    try_catch
      (matches ← index_query v topK;
       match matches with
       | None | Some [] => ret []
       | Some matches =>
           ret (omap (fun m =>
                        metadata ← m_metadata m;
                        Some {|
                          title := or_default (a_title metadata) (lit "Unknown Title");
                          url := or_default (a_url metadata) [];
                          date := or_default (a_date metadata) [];
                          content := Some (or_default (a_content metadata) []) |})
                     matches)
       end)
      (fun error =>
         throw (JsError (lit "Pinecone query failed: "
                         ++ message_or_string error))).

(** *** [ingestion/ingestionService.ts] *)

Definition handleUrlIngestion (u : jsstring) : M unit :=
  if falsy u || negb (isValidUrl u) then ret tt
  else
    try_catch
      (result ← processUrl u;
       match result with
       | None => ret tt
       | Some (article, vector) =>
           try_catch
             (upsertVector u vector article)
             (fun storageError =>
                throw (JsError (lit "Vector storage failed: "
                                ++ message_or_string storageError)))
       end)
      (fun processingError =>
         throw (JsError (lit "URL processing failed: "
                         ++ message_or_string processingError))).

(** *** [ingestion/kafkaConsumer.ts] *)

(** The URL a message carries. *)
Definition message_url (messageStr : jsstring) : jsstring :=
  match JSON_parse_message messageStr with
  | Some messageJson =>
      if truthy (mj_value_url messageJson) then
        default [] (mj_value_url messageJson)
      else if truthy (mj_url messageJson) then
        default [] (mj_url messageJson)
      else messageStr
  | None => messageStr
  end.

(** [recentlyProcessedUrls.has(url)] *)
Definition cache_has (u : jsstring) : M bool :=
  fun w => (Ok (bool_decide (u ∈ recentlyProcessedUrls w)), w).

(** [recentlyProcessedUrls.add(url)] *)
Definition cache_add (u : jsstring) : M unit :=
  fun w => (Ok tt, set_cache ({[u]} ∪ recentlyProcessedUrls w) w).

(** [recentlyProcessedUrls.size] *)
Definition cache_size : M Z :=
  fun w => (Ok (Z.of_nat (size (recentlyProcessedUrls w))), w).

(** [recentlyProcessedUrls.clear()] *)
Definition cache_clear : M unit :=
  fun w => (Ok tt, set_cache ∅ w).

Definition handleKafkaMessage (message : KafkaMessage) : M unit :=
  try_catch
    (match km_value message with
     | None => ret tt
     | Some messageStr =>
         let u := message_url messageStr in
         seen ← cache_has u;
         if (seen : bool) then ret tt
         else
           handleUrlIngestion u;;
           cache_add u;;
           size ← cache_size;
           if MAX_CACHE_SIZE <? size then cache_clear else ret tt
     end)
    (fun _ => ret tt).

(** The callback of [setInterval(..., CACHE_EXPIRY_MS)]. *)
Definition cacheExpiryTick : M unit :=
  cacheSize ← cache_size;
  if 0 <? cacheSize then cache_clear else ret tt.

(** *** [services/ragService.ts] *)

(** [({ title, url, date }) => ({ title, url, date })] *)
Definition cleaned (source : Source) : Source :=
  {| title := title source;
     url := url source;
     date := date source;
     content := None |}.

Definition handleUrlQuery (u : jsstring) : M ApiResponse :=
  try_catch
    (result ← processUrl u;
     match result with
     | None =>
         ret {| answer := lit "I couldn't process this URL. It may be inaccessible or doesn't contain extractable content.";
                sources := [] |}
     | Some (article, _) =>
         let prompt := summary_prompt article in
         answer ← generateText prompt;
         let cleanedSource := {|
           title := a_title article;
           url := a_url article;
           date := a_date article;
           content := None |} in
         ret {| answer := answer; sources := [cleanedSource] |}
     end)
    (fun _ =>
       ret {| answer := lit "Encountered an error while processing this URL.";
              sources := [] |}).

Definition handleKnowledgeBaseQuery (query : jsstring) : M ApiResponse :=
  try_catch
    (embedded ← attempt (generateEmbeddings query);
     match embedded with
     | Throw _ =>
         ret {| answer := lit "encountered an error while processing your query.";
                sources := [] |}
     | Ok queryVector =>
         found ← attempt (querySimilarVectors queryVector 1);
         match found with
         | Throw _ =>
             ret {| answer := lit "couldn't search our knowledge base at the moment.";
                    sources := [] |}
         | Ok [] =>
             ret {| answer := lit "No information related to the query in our knowledge base.";
                    sources := [] |}
         | Ok sources =>
             let sourcesContext :=
               join (lit "

") (imap source_context sources) in
             let prompt := grounding_prompt query sourcesContext in
             try_catch
               (answer ← generateText prompt;
                let cleanedSources := cleaned <$> sources in
                ret {| answer := answer; sources := cleanedSources |})
               (fun _ =>
                  let cleanedSources := cleaned <$> sources in
                  ret {| answer := lit "Couldn't generate a response.";
                         sources := cleanedSources |})
         end
     end)
    (fun _ =>
       ret {| answer := lit "Encountered an error while searching for information.";
              sources := [] |}).

(** [handleQuery] with its two branches abstracted, to see what its own
    [try]/[catch] does. *)
Definition handleQuery_with (urlQuery knowledgeBaseQuery : jsstring -> M ApiResponse)
    (payload : QueryPayload) : M ApiResponse :=
  let query := query payload in
  let isUrl := isValidUrl query in
  try_catch
    (if isUrl then urlQuery query else knowledgeBaseQuery query)
    (fun _ =>
       ret {| answer := lit "Sorry, I encountered an unexpected error while processing your request.";
              sources := [] |}).

Definition handleQuery : QueryPayload -> M ApiResponse :=
  handleQuery_with handleUrlQuery handleKnowledgeBaseQuery.

End Program.

(** *** [utils/helpers.ts], continued *)

(** [truncateString(str, maxLength)] for an integer [maxLength]. *)
Definition truncateString (str : jsstring) (maxLength : Z) : jsstring :=
  if falsy str || (jslength str <=? maxLength) then str
  else substring0 maxLength str ++ lit "...".

(** *** [api/routes.ts] *)

(** What [String.prototype.trim] removes: the WhiteSpace and LineTerminator
    code units of ECMAScript. *)
Definition is_white_space (c : N) : bool :=
  ((c =? 9) || (c =? 10) || (c =? 11) || (c =? 12) || (c =? 13)
   || (c =? 32) || (c =? 160) || (c =? 5760)
   || ((8192 <=? c) && (c <=? 8202))
   || (c =? 8232) || (c =? 8233) || (c =? 8239) || (c =? 8287)
   || (c =? 12288) || (c =? 65279))%N.

Fixpoint trimStart (s : jsstring) : jsstring :=
  match s with
  | [] => []
  | c :: s' => if is_white_space c then trimStart s' else s
  end.

Definition trimEnd (s : jsstring) : jsstring :=
  reverse (trimStart (reverse s)).

(** [s.trim()] *)
Definition trim (s : jsstring) : jsstring := trimEnd (trimStart s).

(** The [query] member of [req.body], an object after [express.json()]. *)
Inductive BodyQuery :=
| QueryMissing                      (* no such member: [undefined] *)
| QueryString (s : jsstring)
| QueryOther (truthy : bool).       (* a JSON value that is not a string *)

(** What [res.status(...).json(...)] sends. *)
Inductive ReplyBody :=
| ErrorReply (error : jsstring)     (* [{ error }] *)
| AnswerReply (response : ApiResponse).

Record HttpReply := mkReply {
  reply_status : Z;
  reply_body : ReplyBody
}.

(** The middleware: [inl] is the response it sends itself, [inr] the body it
    hands to [next()] with the query trimmed. *)
Definition validateQueryPayload (query : BodyQuery) : HttpReply + QueryPayload :=
  let rejected :=
    inl {| reply_status := 400;
           reply_body := ErrorReply (lit
             "Invalid request body. Query must be a non-empty string.") |} in
  match query with
  | QueryMissing => rejected
  | QueryOther _ => rejected
  | QueryString s =>
      if falsy s || falsy (trim s) then rejected
      else inr {| query := trim s |}
  end.

Section Api.

Context {P : Platform}.

(** The handler of [router.post('/agent', ...)]. *)
Definition agentRoute (payload : QueryPayload) : M HttpReply :=
  try_catch
    (response ← handleQuery payload;
     ret {| reply_status := 200; reply_body := AnswerReply response |})
    (fun _ =>
       ret {| reply_status := 500;
              reply_body := ErrorReply (lit "Error while processing request.") |}).

(** The chain the router runs for [POST /agent], on a body that
    [express.json()] has parsed: the middleware, then the handler. *)
Definition postAgent (query : BodyQuery) : M HttpReply :=
  match validateQueryPayload query with
  | inl reply => ret reply
  | inr payload => agentRoute payload
  end.

End Api.

(** *** [api/server.ts] *)

(** A request to [POST /api/agent] after [app.use(express.json())]: the
    parser has either passed an error to [next(err)] (malformed JSON, a
    body that is not an object or array, a body too large) or left an
    object in [req.body], of which the chain reads the [query] member. *)
Inductive ParsedRequest :=
| BodyRejected (err : exn)
| BodyObject (query : BodyQuery).

(** What the client is sent: the router's reply, or that of the error
    handler, [{ error, message? }] with a status. *)
Inductive ServerReply :=
| FromRouter (reply : HttpReply)
| FromErrorHandler (status : Z) (error : jsstring) (message : option jsstring).

(** [err.message]; [None] is [undefined]. *)
Definition error_message (err : exn) : option jsstring :=
  match err with
  | JsError m => Some m
  | JsOther _ => None
  end.

(** The error handler, [app.use((err, req, res, next) => ...)];
    [isProduction] is [config.isProduction]. *)
Definition errorHandler (isProduction : bool) (err : exn) : ServerReply :=
  let isDevelopment := negb isProduction in
  FromErrorHandler 500 (lit "Internal Server Error")
    (if isDevelopment then error_message err else None).

Section Server.

Context {P : Platform}.

(** [POST /api/agent] through the application: the body parser, then the
    router's chain, with the error handler behind them. *)
Definition serveAgent (isProduction : bool) (request : ParsedRequest)
  : M ServerReply :=
  match request with
  | BodyRejected err => ret (errorHandler isProduction err)
  | BodyObject query =>
      reply ← postAgent query;
      ret (FromRouter reply)
  end.

End Server.

(** The response of the [catch] of [handleQuery]. *)
Definition generic_fallback : ApiResponse :=
  {| answer := lit "Sorry, I encountered an unexpected error while processing your request.";
     sources := [] |}.

(** ** What a computation leaves alone *)

(** [m] relates the world it starts in to the world it ends in by [R]. *)
Definition keeps {A} (R : World -> World -> Prop) (m : M A) : Prop :=
  forall w, R w (m w).2.

(** The dedup cache is the same. *)
Definition same_cache (w w' : World) : Prop :=
  recentlyProcessedUrls w' = recentlyProcessedUrls w.

(** The index and the client are the same. *)
Definition same_store (w w' : World) : Prop :=
  index w' = index w /\ pineconeClient w' = pineconeClient w.

(** The trace grew by calls that all satisfy [ok]. *)
Definition grew_by (ok : Event -> Prop) (w w' : World) : Prop :=
  exists evs, trace w' = trace w ++ evs /\ Forall ok evs.

Definition is_store_call (ev : Event) : Prop :=
  match ev with
  | EvIndexFetch _ | EvIndexUpsert _ | EvSetTimeout _ => True
  | _ => False
  end.

(** The world after [recentlyProcessedUrls.add(url)] and the size check
    that follows it in [handleKafkaMessage]. *)
Definition remember (u : jsstring) (w : World) : World :=
  let w' := set_cache ({[u]} ∪ recentlyProcessedUrls w) w in
  if MAX_CACHE_SIZE <? Z.of_nat (size (recentlyProcessedUrls w')) then
    set_cache ∅ w'
  else w'.

(** The next [index.fetch] reaches the index (no fault is scripted for
    it). *)
Definition lookup_answers (w : World) : Prop :=
  (next (fetch_faults w) None).1 = None.

(** *** Reading traces *)

(** The delays awaited, in order. *)
Definition delays_of (evs : list Event) : list Z :=
  omap (fun ev => match ev with EvSetTimeout d => Some d | _ => None end) evs.

(** The records written, in order. *)
Definition writes_of (evs : list Event) : list PineconeRecord :=
  omap (fun ev => match ev with EvIndexUpsert r => Some r | _ => None end) evs.

(** Calls of the URL path of a query: the page, the text model, the
    embedding model. *)
Definition is_page_call (ev : Event) : Prop :=
  match ev with
  | EvFetch _ | EvGenerateContent _ _ | EvEmbedContent _ => True
  | _ => False
  end.

(** Calls of the knowledge path of a query: the embedding model, the
    similarity search, the text model in plain mode. *)
Definition is_retrieval_call (ev : Event) : Prop :=
  match ev with
  | EvEmbedContent _ | EvIndexQuery _ _ | EvGenerateContent false _ => True
  | _ => False
  end.

(** No word of the store is changed: index, client and dedup cache. *)
Definition read_only (w w' : World) : Prop :=
  same_store w w' /\ same_cache w w'.

(** ** A concrete platform and concrete worlds

    Used to run the program on inputs.  The platform below agrees with the
    real [URL] and [JSON.parse] on the strings that occur in them. *)

Module Demo.

Definition article_url : jsstring := lit "https://example.com/article".
Definition question : jsstring := lit "what happened in the wildfires".

Definition json_string (s : jsstring) : jsstring := dquote ++ s ++ dquote.

(** The text of a JSON object with the three members the structuring step
    asks for. *)
Definition structured_doc (t c d : jsstring) : jsstring :=
  lit "{" ++ json_string (lit "title") ++ lit ":" ++ json_string t
  ++ lit "," ++ json_string (lit "content") ++ lit ":" ++ json_string c
  ++ lit "," ++ json_string (lit "date") ++ lit ":" ++ json_string d
  ++ lit "}".

(** The text of a message envelope with a [url] member. *)
Definition envelope_doc (u : jsstring) : jsstring :=
  lit "{" ++ json_string (lit "url") ++ lit ":" ++ json_string u ++ lit "}".

(** A content of 8001 code units. *)
Definition long_content : jsstring := replicate (Z.to_nat 8001) 97%N.

Definition short_doc : jsstring :=
  structured_doc (lit "A") (lit "B") (lit "2024-01-01").
Definition long_doc : jsstring :=
  structured_doc (lit "A") long_content (lit "2024-01-01").

#[local] Instance platform : Platform := {|
  URL_protocol s :=
    if bool_decide (s = article_url) then Some (lit "https:") else None;
  JSON_parse_structured s :=
    if bool_decide (s = short_doc) then
      Some (mkStructured (Some (lit "A")) (Some (lit "B"))
                         (Some (lit "2024-01-01")))
    else if bool_decide (s = long_doc) then
      Some (mkStructured (Some (lit "A")) (Some long_content)
                         (Some (lit "2024-01-01")))
    else None;
  JSON_parse_message s :=
    if bool_decide (s = envelope_doc article_url) then
      Some (mkMessageJson None (Some article_url))
    else None
|}.

(** A started process: client initialised, nothing cached, empty index, no
    scripted answers. *)
Definition started : World :=
  mkWorld true ∅ ∅ [] [] [] [] [] [] [].

Definition page : Result HttpResponse :=
  Ok (mkResponse true 200 (Ok (lit "<html><h1>A</h1><p>B</p></html>"))).

Definition article : Article :=
  mkArticle (lit "A") (lit "B") article_url (lit "2024-01-01").

Definition some_vector : vector := [0.5%float; 0.25%float].

Definition outage : exn := JsError (lit "503 Service Unavailable").

(** The page is served and structured; the embedding service is down. *)
Definition embedding_down : World :=
  set_net [page]
    (set_text_model [Ok short_doc]
       (set_embed_model [Throw outage] started)).

(** The page is served and structured with a long content; embedding works. *)
Definition long_article : World :=
  set_net [page]
    (set_text_model [Ok long_doc]
       (set_embed_model [Ok (Some some_vector)] started)).

(** The page is served, structured and embedded; text generation fails. *)
Definition generation_down : World :=
  set_net [page]
    (set_text_model [Ok short_doc; Throw outage]
       (set_embed_model [Ok (Some some_vector)] started)).

(** Everything works for one article. *)
Definition all_up : World :=
  set_net [page]
    (set_text_model [Ok short_doc; Ok (lit "A summary.")]
       (set_embed_model [Ok (Some some_vector)] started)).

Definition stored : PineconeRecord :=
  mkRecord article_url some_vector article.

Definition other_vector : vector := [1.0%float].
Definition revised : Article :=
  mkArticle (lit "A, revised") (lit "C") article_url (lit "2024-02-02").

(** The article is in the index. *)
Definition ingested : World :=
  set_index {[ article_url := stored ]} started.

(** The article is in the index and the next existence lookup fails. *)
Definition lookup_down : World :=
  set_fetch_faults [Some outage] ingested.

(** The article is in the index, the next existence lookup fails and so do
    the next three writes. *)
Definition lookup_and_writes_down : World :=
  set_upsert_faults [Some outage; Some outage; Some outage] lookup_down.

(** The next two writes fail, the third goes through. *)
Definition flaky_writes : World :=
  set_upsert_faults [Some outage; Some outage; None] started.

(** The next three writes fail. *)
Definition failing_writes : World :=
  set_upsert_faults [Some outage; Some outage; Some outage] started.

(** The question embeds; the index answers with one match, then text
    generation works or not. *)
Definition one_match : ScoredVector :=
  mkMatch article_url 0.875%float (Some article).

Definition kb_answered : World :=
  set_embed_model [Ok (Some some_vector)]
    (set_query_replies [Ok (Some [one_match])]
       (set_text_model [Ok (lit "An answer.")] started)).

Definition kb_generation_down : World :=
  set_embed_model [Ok (Some some_vector)]
    (set_query_replies [Ok (Some [one_match])]
       (set_text_model [Throw outage] started)).

(** The question embeds; the index has nothing close. *)
Definition kb_no_match : World :=
  set_embed_model [Ok (Some some_vector)]
    (set_query_replies [Ok (Some [])] started).

(** The article's address is in the dedup cache. *)
Definition cached : World := set_cache {[ article_url ]} all_up.

(** Everything works up to the write, which fails three times. *)
Definition storage_down : World :=
  set_upsert_faults [Some outage; Some outage; Some outage] all_up.

Definition raw_message : KafkaMessage :=
  mkKafkaMessage (lit "42") (Some article_url).
Definition envelope_message : KafkaMessage :=
  mkKafkaMessage (lit "43") (Some (envelope_doc article_url)).

(** The client has not been initialised. *)
Definition no_client : World :=
  mkWorld false ∅ ∅ [] [] [] [] [] [] [].

(** The embedding model is down. *)
Definition kb_embedding_down : World :=
  set_embed_model [Throw outage] started.

(** The question embeds; the similarity search fails. *)
Definition kb_search_down : World :=
  set_embed_model [Ok (Some some_vector)]
    (set_query_replies [Throw outage] started).

(** A thousand one-unit strings. *)
Definition full_cache : gset jsstring :=
  list_to_set ((fun n => [N.of_nat n]) <$> seq 0 1000).

(** Everything works for one article and the cache is at its cap. *)
Definition at_cap : World := set_cache full_cache all_up.

(** A message that is neither JSON nor a URL. *)
Definition text_message : KafkaMessage :=
  mkKafkaMessage (lit "44") (Some (lit "not a url")).


End Demo.

(** * Properties *)

(** ** Running computations *)

Lemma bind_Ok {A B} (m : M A) (k : A -> M B) w a w' :
  m w = (Ok a, w') -> (m ≫= k) w = k a w'.
Proof. intros E. unfold mbind, M_bind, bind. by rewrite E. Qed.

Lemma bind_Throw {A B} (m : M A) (k : A -> M B) w e w' :
  m w = (Throw e, w') -> (m ≫= k) w = (Throw e, w').
Proof. intros E. unfold mbind, M_bind, bind. by rewrite E. Qed.

Lemma try_catch_Ok {A} (m : M A) h w a w' :
  m w = (Ok a, w') -> try_catch m h w = (Ok a, w').
Proof. intros E. unfold try_catch. by rewrite E. Qed.

Lemma try_catch_Throw {A} (m : M A) h w e w' :
  m w = (Throw e, w') -> try_catch m h w = h e w'.
Proof. intros E. unfold try_catch. by rewrite E. Qed.

Lemma attempt_run {A} (m : M A) w r w' :
  m w = (r, w') -> attempt m w = (Ok r, w').
Proof. intros E. unfold attempt. by rewrite E. Qed.

(** A computation that has a [catch] returning a value never throws. *)
Lemma try_catch_total {A} (m : M A) (h : exn -> M A) :
  (forall e w, exists a w', h e w = (Ok a, w')) ->
  forall w, exists a w', try_catch m h w = (Ok a, w').
Proof.
  intros Hh w. unfold try_catch.
  destruct (m w) as [[a|e] w']; eauto.
Qed.

(** ** Frames *)

Section Frame.

Context (R : World -> World -> Prop) `{!Reflexive R, !Transitive R}.

Lemma keeps_ret {A} (a : A) : keeps R (ret a).
Proof. intros w. simpl. reflexivity. Qed.

Lemma keeps_throw {A} e : keeps R (@throw A e).
Proof. intros w. simpl. reflexivity. Qed.

Lemma keeps_of_result {A} (r : Result A) : keeps R (of_result r).
Proof. intros w. simpl. reflexivity. Qed.

Lemma keeps_bind {A B} (m : M A) (k : A -> M B) :
  keeps R m -> (forall a, keeps R (k a)) -> keeps R (m ≫= k).
Proof.
  intros Hm Hk w. unfold mbind, M_bind, bind.
  specialize (Hm w). destruct (m w) as [[a|e] w']; simpl in *; [|done].
  etrans; [exact Hm | apply Hk].
Qed.

Lemma keeps_try_catch {A} (m : M A) (h : exn -> M A) :
  keeps R m -> (forall e, keeps R (h e)) -> keeps R (try_catch m h).
Proof.
  intros Hm Hh w. unfold try_catch.
  specialize (Hm w). destruct (m w) as [[a|e] w']; simpl in *; [done|].
  etrans; [exact Hm | apply Hh].
Qed.

Lemma keeps_attempt {A} (m : M A) : keeps R m -> keeps R (attempt m).
Proof.
  intros Hm w. unfold attempt. specialize (Hm w).
  by destruct (m w) as [r w'].
Qed.

End Frame.

#[global] Instance same_cache_refl : Reflexive same_cache.
Proof. by intros w. Qed.

#[global] Instance same_cache_trans : Transitive same_cache.
Proof. unfold same_cache. intros a b c H1 H2. congruence. Qed.

#[global] Instance same_store_refl : Reflexive same_store.
Proof. by intros w. Qed.

#[global] Instance same_store_trans : Transitive same_store.
Proof. unfold same_store. intros a b c [] []. split; congruence. Qed.

#[global] Instance grew_by_refl ok : Reflexive (grew_by ok).
Proof. intros w. exists []. by rewrite app_nil_r. Qed.

#[global] Instance grew_by_trans ok : Transitive (grew_by ok).
Proof.
  intros a b c (e1 & E1 & F1) (e2 & E2 & F2). exists (e1 ++ e2). split.
  - by rewrite E2, E1, app_assoc.
  - by apply Forall_app.
Qed.

(** The remote calls and the dedup cache. *)

Lemma fetch_same_cache u : keeps same_cache (fetch u).
Proof. intros w. unfold fetch. by destruct (next _ _). Qed.

Lemma generateContent_same_cache j p :
  keeps same_cache (textModel_generateContent j p).
Proof. intros w. unfold textModel_generateContent. by destruct (next _ _). Qed.

Lemma embedContent_same_cache t : keeps same_cache (embedModel_embedContent t).
Proof. intros w. unfold embedModel_embedContent. by destruct (next _ _). Qed.

Lemma index_fetch_same_cache id : keeps same_cache (index_fetch id).
Proof. intros w. unfold index_fetch. by destruct (next _ _) as [[]]. Qed.

Lemma index_upsert_same_cache r : keeps same_cache (index_upsert r).
Proof. intros w. unfold index_upsert. by destruct (next _ _) as [[]]. Qed.

Lemma index_query_same_cache v k : keeps same_cache (index_query v k).
Proof. intros w. unfold index_query. by destruct (next _ _). Qed.

Lemma setTimeout_same_cache d : keeps same_cache (setTimeout d).
Proof. by intros w. Qed.

Lemma client_ready_keeps R `{!Reflexive R} : keeps R client_ready.
Proof. intros w. simpl. reflexivity. Qed.

(** The remote calls other than the index write, and the store. *)

Lemma fetch_same_store u : keeps same_store (fetch u).
Proof. intros w. unfold fetch. by destruct (next _ _). Qed.

Lemma generateContent_same_store j p :
  keeps same_store (textModel_generateContent j p).
Proof. intros w. unfold textModel_generateContent. by destruct (next _ _). Qed.

Lemma embedContent_same_store t : keeps same_store (embedModel_embedContent t).
Proof. intros w. unfold embedModel_embedContent. by destruct (next _ _). Qed.

Lemma index_fetch_same_store id : keeps same_store (index_fetch id).
Proof. intros w. unfold index_fetch. by destruct (next _ _) as [[]]. Qed.

(** The calls to the store extend the trace by store calls. *)

Lemma grew_by_one ok ev w w' :
  ok ev -> trace w' = trace w ++ [ev] -> grew_by ok w w'.
Proof. intros Hok E. exists [ev]. split; [done | by constructor]. Qed.

Lemma index_fetch_grew id : keeps (grew_by is_store_call) (index_fetch id).
Proof.
  intros w. unfold index_fetch. destruct (next _ _) as [[]];
    by apply (grew_by_one _ (EvIndexFetch id)).
Qed.

Lemma index_upsert_grew r : keeps (grew_by is_store_call) (index_upsert r).
Proof.
  intros w. unfold index_upsert. destruct (next _ _) as [[]];
    by apply (grew_by_one _ (EvIndexUpsert r)).
Qed.

Lemma setTimeout_grew d : keeps (grew_by is_store_call) (setTimeout d).
Proof. intros w. by apply (grew_by_one _ (EvSetTimeout d)). Qed.

Create HintDb frame.

#[global] Hint Resolve
  fetch_same_cache generateContent_same_cache embedContent_same_cache
  index_fetch_same_cache index_upsert_same_cache index_query_same_cache
  setTimeout_same_cache
  fetch_same_store generateContent_same_store embedContent_same_store
  index_fetch_same_store
  index_fetch_grew index_upsert_grew setTimeout_grew : frame.

(** Side goals of the frame lemmas: the relation is a preorder, and the
    continuation takes an argument. *)
Ltac frame_side :=
  try tc_solve;
  lazymatch goal with
  | |- forall _, _ => intros ?
  | _ => idtac
  end.

(** One step through the syntax of a computation. *)
Ltac frame_step :=
  lazymatch goal with
  | |- keeps _ (ret _) => apply keeps_ret; tc_solve
  | |- keeps _ (throw _) => apply keeps_throw; tc_solve
  | |- keeps _ (of_result _) => apply keeps_of_result; tc_solve
  | |- keeps _ client_ready => apply client_ready_keeps; tc_solve
  | |- keeps _ (_ ≫= _) => apply keeps_bind; frame_side
  | |- keeps _ (try_catch _ _) => apply keeps_try_catch; frame_side
  | |- keeps _ (attempt _) => apply keeps_attempt
  | |- keeps _ (if ?b then _ else _) => destruct b
  | |- keeps _ (match ?x with _ => _ end) => destruct x
  | |- keeps _ _ => solve [auto with frame]
  end.

Ltac frame := cbv zeta; repeat (frame_step; cbv zeta).

Section Properties.

Context {P : Platform}.

(** *** Frames of the program *)

Lemma generateText_same_cache p : keeps same_cache (generateText p).
Proof. unfold generateText. frame. Qed.

Lemma cleanAndStructureHtml_same_cache h u :
  keeps same_cache (cleanAndStructureHtml h u).
Proof. unfold cleanAndStructureHtml. frame. Qed.

Lemma generateEmbeddings_same_cache t : keeps same_cache (generateEmbeddings t).
Proof. unfold generateEmbeddings. frame. Qed.

Lemma fetchUrlContent_same_cache u : keeps same_cache (fetchUrlContent u).
Proof. unfold fetchUrlContent. frame. Qed.

#[local] Hint Resolve generateText_same_cache cleanAndStructureHtml_same_cache
  generateEmbeddings_same_cache fetchUrlContent_same_cache : frame.

Lemma processUrl_same_cache u : keeps same_cache (processUrl u).
Proof. unfold processUrl. frame. Qed.

Lemma vectorExists_same_cache id : keeps same_cache (vectorExists id).
Proof. unfold vectorExists. frame. Qed.

Lemma upsert_loop_same_cache fuel r n le :
  keeps same_cache (upsert_loop fuel r n le).
Proof.
  revert n le. induction fuel as [|fuel IH]; intros n le; simpl; frame.
Qed.

#[local] Hint Resolve processUrl_same_cache vectorExists_same_cache
  upsert_loop_same_cache : frame.

Lemma upsertVector_same_cache id v a : keeps same_cache (upsertVector id v a).
Proof. unfold upsertVector, upsertVector_fuel. frame. Qed.

#[local] Hint Resolve upsertVector_same_cache : frame.

Lemma handleUrlIngestion_same_cache u : keeps same_cache (handleUrlIngestion u).
Proof. unfold handleUrlIngestion. frame. Qed.

(** *** The query router *)

Lemma handleUrlQuery_total u w :
  exists resp w', handleUrlQuery u w = (Ok resp, w').
Proof. apply try_catch_total. intros e w0. by eexists _, _. Qed.

Lemma handleKnowledgeBaseQuery_total q w :
  exists resp w', handleKnowledgeBaseQuery q w = (Ok resp, w').
Proof. apply try_catch_total. intros e w0. by eexists _, _. Qed.

Lemma handleQuery_with_total urlQuery knowledgeBaseQuery payload w :
  exists resp w',
    handleQuery_with urlQuery knowledgeBaseQuery payload w = (Ok resp, w').
Proof. apply try_catch_total. intros e w0. by eexists _, _. Qed.

(** C6. [handleQuery] never throws: from every world and for every payload
    it returns a response, whatever the remote services do.  Its own
    [catch] turns an exception of either branch, were one to escape, into
    the generic apology with no sources. *)
Theorem handleQuery_never_throws payload w :
  (exists resp w', handleQuery payload w = (Ok resp, w'))
  /\ (forall urlQuery knowledgeBaseQuery,
        (exists resp w',
           handleQuery_with urlQuery knowledgeBaseQuery payload w = (Ok resp, w'))
        /\ (forall e w',
              (if isValidUrl (query payload) then urlQuery
               else knowledgeBaseQuery) (query payload) w = (Throw e, w') ->
              handleQuery_with urlQuery knowledgeBaseQuery payload w
              = (Ok generic_fallback, w'))).
Proof.
  split; [apply handleQuery_with_total|].
  intros urlQuery knowledgeBaseQuery.
  split; [apply handleQuery_with_total|].
  intros e w' E. unfold handleQuery_with.
  erewrite try_catch_Throw; [done|].
  by destruct (isValidUrl _).
Qed.

(** C9. A knowledge-mode query whose embedding succeeds and whose similarity
    search finds nothing is answered with the fixed text and no sources. *)
Theorem handleQuery_no_matches q w queryVector w1 w2 :
  isValidUrl q = false ->
  generateEmbeddings q w = (Ok queryVector, w1) ->
  querySimilarVectors queryVector 1 w1 = (Ok [], w2) ->
  handleQuery {| query := q |} w
  = (Ok {| answer := lit "No information related to the query in our knowledge base.";
           sources := [] |}, w2).
Proof.
  intros Hq Hembed Hsearch.
  unfold handleQuery, handleQuery_with. simpl query. rewrite Hq.
  apply try_catch_Ok. unfold handleKnowledgeBaseQuery.
  apply try_catch_Ok.
  erewrite bind_Ok by (apply attempt_run, Hembed). cbv beta iota.
  erewrite bind_Ok by (apply attempt_run, Hsearch). done.
Qed.

(** *** Sources in responses *)

Lemma cleaned_sources_no_content (l : list Source) :
  Forall (fun s => content s = None) (cleaned <$> l).
Proof. apply Forall_fmap, Forall_true. done. Qed.

Lemma handleUrlQuery_no_content u w resp w' :
  handleUrlQuery u w = (Ok resp, w') ->
  Forall (fun s => content s = None) (sources resp).
Proof.
  unfold handleUrlQuery, try_catch, mbind, M_bind, bind, ret.
  intros E. repeat case_match; simplify_eq; simpl; repeat constructor.
Qed.

Lemma handleKnowledgeBaseQuery_no_content q w resp w' :
  handleKnowledgeBaseQuery q w = (Ok resp, w') ->
  Forall (fun s => content s = None) (sources resp).
Proof.
  unfold handleKnowledgeBaseQuery, try_catch, mbind, M_bind, bind, ret, attempt.
  intros E. repeat case_match; simplify_eq; cbn [sources];
    first [apply Forall_nil_2
          | apply (cleaned_sources_no_content (_ :: _))].
Qed.

(** C7. No source of a response of [handleQuery] has a [content] member,
    in URL mode and in knowledge mode, on success and on every fallback. *)
Theorem handleQuery_sources_no_content payload w resp w' :
  handleQuery payload w = (Ok resp, w') ->
  Forall (fun s => content s = None) (sources resp).
Proof.
  unfold handleQuery, handleQuery_with, try_catch. intros E.
  destruct (isValidUrl (query payload)).
  - destruct (handleUrlQuery _ w) as [[r|e] w1] eqn:E1;
      unfold ret in E; simplify_eq.
    + eapply handleUrlQuery_no_content, E1.
    + constructor.
  - destruct (handleKnowledgeBaseQuery _ w) as [[r|e] w1] eqn:E1;
      unfold ret in E; simplify_eq.
    + eapply handleKnowledgeBaseQuery_no_content, E1.
    + constructor.
Qed.

(** *** Failure of text generation *)

(** C3, as the code has it.  In knowledge mode, when text generation fails
    after the search has found sources, the response carries the fixed
    answer and those sources without their content.  In URL mode, when
    text generation fails after the article has been extracted, the
    response carries a fixed answer and no sources. *)
Theorem generation_failure_responses :
  (forall q w queryVector w1 s ss w2 e w3,
     isValidUrl q = false ->
     generateEmbeddings q w = (Ok queryVector, w1) ->
     querySimilarVectors queryVector 1 w1 = (Ok (s :: ss), w2) ->
     generateText
       (grounding_prompt q (join (lit "

") (imap source_context (s :: ss)))) w2 = (Throw e, w3) ->
     handleQuery {| query := q |} w
     = (Ok {| answer := lit "Couldn't generate a response.";
              sources := cleaned <$> (s :: ss) |}, w3))
  /\ (forall u w article v w1 e w2,
        isValidUrl u = true ->
        processUrl u w = (Ok (Some (article, v)), w1) ->
        generateText (summary_prompt article) w1 = (Throw e, w2) ->
        handleQuery {| query := u |} w
        = (Ok {| answer := lit "Encountered an error while processing this URL.";
                 sources := [] |}, w2)).
Proof.
  split.
  - intros q w queryVector w1 s ss w2 e w3 Hq Hembed Hsearch Hgen.
    unfold handleQuery, handleQuery_with. simpl query. rewrite Hq.
    apply try_catch_Ok. unfold handleKnowledgeBaseQuery.
    apply try_catch_Ok.
    erewrite bind_Ok by (apply attempt_run, Hembed). cbv beta iota.
    erewrite bind_Ok by (apply attempt_run, Hsearch). cbv beta iota zeta.
    erewrite try_catch_Throw; [done|].
    by erewrite bind_Throw by exact Hgen.
  - intros u w article v w1 e w2 Hu Hproc Hgen.
    unfold handleQuery, handleQuery_with. simpl query. rewrite Hu.
    apply try_catch_Ok. unfold handleUrlQuery.
    erewrite try_catch_Throw; [done|].
    erewrite bind_Ok by exact Hproc. cbv beta iota zeta.
    by erewrite bind_Throw by exact Hgen.
Qed.

(** *** Extraction and embedding *)

Lemma generateEmbeddings_same_store t : keeps same_store (generateEmbeddings t).
Proof. unfold generateEmbeddings. frame. Qed.

Lemma cleanAndStructureHtml_same_store h u :
  keeps same_store (cleanAndStructureHtml h u).
Proof. unfold cleanAndStructureHtml. frame. Qed.

Lemma fetchUrlContent_same_store u : keeps same_store (fetchUrlContent u).
Proof. unfold fetchUrlContent. frame. Qed.

#[local] Hint Resolve generateEmbeddings_same_store
  cleanAndStructureHtml_same_store fetchUrlContent_same_store : frame.

Lemma processUrl_same_store u : keeps same_store (processUrl u).
Proof. unfold processUrl. frame. Qed.

(** The text [generateEmbeddings] hands to the embedding model. *)
Lemma generateEmbeddings_trace t w :
  trace (generateEmbeddings t w).2
  = trace w ++ [EvEmbedContent (truncate_to MAX_EMBED_TEXT_LENGTH t)].
Proof.
  unfold generateEmbeddings, try_catch, mbind, M_bind, bind,
    embedModel_embedContent.
  cbv zeta. by destruct (next _ _) as [[[v|]|e] rest].
Qed.

Lemma isValidUrl_not_falsy u : isValidUrl u = true -> falsy u = false.
Proof. unfold isValidUrl. by destruct (falsy u). Qed.

(** [processUrl] from the point where the article has been extracted. *)
Lemma processUrl_extracted u w html w1 article w2 :
  isValidUrl u = true ->
  fetchUrlContent u w = (Ok (Some html), w1) ->
  html <> [] ->
  cleanAndStructureHtml html u w1 = (Ok (Some article), w2) ->
  processUrl u w
  = match generateEmbeddings
            (a_title article ++ lit ". " ++ substring0 8000 (a_content article))
            w2 with
    | (Ok v, w3) => (Ok (Some (article, v)), w3)
    | (Throw _, w3) => (Ok None, w3)
    end.
Proof.
  intros Hu Hfetch Hhtml Hclean. unfold processUrl.
  rewrite Hu, (isValidUrl_not_falsy _ Hu). simpl orb. cbv iota.
  unfold try_catch at 1.
  erewrite bind_Ok by exact Hfetch. cbv beta.
  destruct html as [|c html]; [done|].
  change (negb (truthy (Some (c :: html)))) with false. cbv iota.
  change (default [] (Some (c :: html))) with (c :: html).
  erewrite bind_Ok by exact Hclean. cbv beta iota zeta.
  unfold mbind, M_bind, bind.
  by destruct (generateEmbeddings _ w2) as [[v|e] w3].
Qed.

(** C1, as the code has it.  When extraction succeeds and the embedding
    step raises, [processUrl] catches the error and yields [null], and
    [handleUrlIngestion] returns normally; nothing is written to the
    index. *)
Theorem handleUrlIngestion_embedding_failure u w html w1 article w2 e w3 :
  isValidUrl u = true ->
  fetchUrlContent u w = (Ok (Some html), w1) ->
  html <> [] ->
  cleanAndStructureHtml html u w1 = (Ok (Some article), w2) ->
  generateEmbeddings
    (a_title article ++ lit ". " ++ substring0 8000 (a_content article)) w2
  = (Throw e, w3) ->
  processUrl u w = (Ok None, w3)
  /\ handleUrlIngestion u w = (Ok tt, w3)
  /\ index w3 = index w.
Proof.
  intros Hu Hfetch Hhtml Hclean Hembed.
  assert (Hproc : processUrl u w = (Ok None, w3)).
  { erewrite processUrl_extracted by eassumption. by rewrite Hembed. }
  split; [done|]. split.
  - unfold handleUrlIngestion.
    rewrite Hu, (isValidUrl_not_falsy _ Hu). simpl orb. cbv iota.
    apply try_catch_Ok. by erewrite bind_Ok by exact Hproc.
  - pose proof (processUrl_same_store u w) as [Hi _].
    by rewrite Hproc in Hi.
Qed.

End Properties.

(** ** The vector store adapter *)

Lemma index_upsert_fault r w e rest :
  upsert_faults w = Some e :: rest ->
  index_upsert r w
  = (Throw e, set_upsert_faults rest (record_event (EvIndexUpsert r) w)).
Proof. intros E. unfold index_upsert. by rewrite E. Qed.

Lemma index_upsert_written r w rest :
  upsert_faults w = None :: rest ->
  index_upsert r w
  = (Ok tt, set_index (<[r_id r := r]> (index w))
              (set_upsert_faults rest (record_event (EvIndexUpsert r) w))).
Proof. intros E. unfold index_upsert. by rewrite E. Qed.

Lemma upsert_loop_done fuel r n le w :
  MAX_RETRIES < n -> upsert_loop fuel r n le w = (Ok (Fallthrough le), w).
Proof.
  intros Hn. destruct fuel; simpl;
    (destruct (n <=? MAX_RETRIES) eqn:E; [lia | done]).
Qed.

(** One iteration of the loop. *)
Lemma upsert_loop_step fuel r n le w :
  n <= MAX_RETRIES ->
  upsert_loop (S fuel) r n le w
  = match index_upsert r w with
    | (Ok _, w1) => (Ok Returned, w1)
    | (Throw e, w1) =>
        if n + 1 <=? MAX_RETRIES then
          upsert_loop fuel r (n + 1) (Some e)
            (record_event (EvSetTimeout (2 ^ (n + 1) * 1000)) w1)
        else (Ok (Fallthrough (Some e)), w1)
    end.
Proof.
  intros Hn. simpl. destruct (n <=? MAX_RETRIES) eqn:E; [|lia].
  change (negb true) with false. cbv iota.
  unfold try_catch, mbind, M_bind, bind.
  destruct (index_upsert r w) as [[[]|e] w1]; [done|].
  by destruct (n + 1 <=? MAX_RETRIES).
Qed.

(** The loop of [upsertVector] never needs more than [MAX_RETRIES + 1]
    iterations counted from [retryCount = 0]: with that much fuel or more it
    gives the same result, and it does not run out. *)
Lemma upsert_loop_fuel fuel r n le w :
  0 <= n ->
  (Z.to_nat (MAX_RETRIES + 1 - n) <= fuel)%nat ->
  upsert_loop fuel r n le w
  = upsert_loop (Z.to_nat (MAX_RETRIES + 1 - n)) r n le w
  /\ (upsert_loop fuel r n le w).1 <> Ok OutOfFuel.
Proof.
  revert n le w.
  induction fuel as [|fuel IH]; intros n le w Hn Hfuel.
  - assert (MAX_RETRIES < n) by lia. by rewrite !upsert_loop_done.
  - destruct (Z_lt_le_dec MAX_RETRIES n) as [Hlt|Hle].
    { by rewrite !upsert_loop_done. }
    destruct (Z.to_nat (MAX_RETRIES + 1 - n)) as [|k] eqn:Ek; [lia|].
    rewrite !upsert_loop_step by done.
    destruct (index_upsert r w) as [[[]|e] w1]; [done|].
    destruct (n + 1 <=? MAX_RETRIES) eqn:E1; [|done].
    replace k with (Z.to_nat (MAX_RETRIES + 1 - (n + 1))) by lia.
    apply IH; lia.
Qed.

Lemma upsertVector_fuel_enough fuel id v a w :
  (Z.to_nat (MAX_RETRIES + 1) <= fuel)%nat ->
  upsertVector_fuel fuel id v a w = upsertVector id v a w.
Proof.
  intros Hfuel. unfold upsertVector, upsertVector_fuel.
  rewrite !(bind_Ok client_ready _ w (pineconeClient w) w) by done.
  destruct (pineconeClient w); [|done].
  change (negb true) with false. cbv iota.
  destruct (vectorExists id w) as [[[]|e] w1] eqn:Ev.
  - by rewrite !(bind_Ok _ _ _ _ _ Ev).
  - rewrite !(bind_Ok _ _ _ _ _ Ev). cbv iota zeta.
    unfold mbind, M_bind, bind.
    match goal with
    | |- context [upsert_loop fuel ?r 0 None w1] =>
        destruct (upsert_loop_fuel fuel r 0 None w1) as [-> _];
          [lia | done | done]
    end.
  - by rewrite !(bind_Throw _ _ _ _ _ Ev).
Qed.

(** [upsertVector] once the existence check has said no. *)
Lemma upsertVector_absent id v metadata w w0 :
  pineconeClient w = true ->
  vectorExists id w = (Ok false, w0) ->
  upsertVector id v metadata w
  = match upsert_loop 3 (mkRecord id v metadata) 0 None w0 with
    | (Ok Returned, w1) => (Ok tt, w1)
    | (Ok (Fallthrough lastError), w1) =>
        (Throw (JsError (lit "Failed to upsert vector to Pinecone: "
                         ++ match lastError with
                            | Some e => message_or_string e
                            | None => lit "null"
                            end)), w1)
    | (Ok OutOfFuel, w1) => (Throw (JsOther (lit "loop fuel exhausted")), w1)
    | (Throw e, w1) => (Throw e, w1)
    end.
Proof.
  intros Hclient Hexists. unfold upsertVector, upsertVector_fuel.
  rewrite (bind_Ok client_ready _ w (pineconeClient w) w) by done.
  rewrite Hclient. change (negb true) with false. cbv iota.
  rewrite (bind_Ok _ _ _ _ _ Hexists). cbv iota zeta.
  replace {| r_id := id; r_values := v; r_metadata := _ |}
    with (mkRecord id v metadata) by (by destruct metadata).
  change (Z.to_nat (MAX_RETRIES + 1)) with 3%nat.
  unfold mbind, M_bind, bind.
  by destruct (upsert_loop 3 _ 0 None w0) as [[[]|e] w1].
Qed.

(** C4. When the existence check says the id is absent and the first two
    writes fail, the delays before the two retries are 2000 ms and 4000 ms;
    if the third write goes through the call succeeds and the record is in
    the index, and if the third write fails too the call throws an error
    that wraps the last failure, after three writes and no further delay. *)
Theorem upsertVector_retries id v metadata w w0 e1 e2 third rest :
  pineconeClient w = true ->
  vectorExists id w = (Ok false, w0) ->
  upsert_faults w0 = Some e1 :: Some e2 :: third :: rest ->
  let record := mkRecord id v metadata in
  let r := upsertVector id v metadata w in
  trace r.2
  = trace w0 ++ [EvIndexUpsert record; EvSetTimeout 2000;
                 EvIndexUpsert record; EvSetTimeout 4000;
                 EvIndexUpsert record]
  /\ match third with
     | None =>
         r.1 = Ok tt /\ index r.2 = <[id := record]> (index w0)
     | Some e3 =>
         r.1 = Throw (JsError (lit "Failed to upsert vector to Pinecone: "
                               ++ message_or_string e3))
         /\ index r.2 = index w0
     end.
Proof.
  intros Hclient Hexists Hfaults record r. subst r.
  rewrite (upsertVector_absent _ _ _ _ _ Hclient Hexists). fold record.
  rewrite upsert_loop_step by done.
  rewrite (index_upsert_fault _ _ _ _ Hfaults).
  change (0 + 1 <=? MAX_RETRIES) with true. cbv iota.
  rewrite upsert_loop_step by done.
  erewrite index_upsert_fault by reflexivity.
  change (0 + 1 + 1 <=? MAX_RETRIES) with true. cbv iota.
  rewrite upsert_loop_step by done.
  destruct third as [e3|].
  - erewrite index_upsert_fault by reflexivity.
    change (0 + 1 + 1 + 1 <=? MAX_RETRIES) with false. cbv iota.
    simpl. by rewrite <- !app_assoc.
  - erewrite index_upsert_written by reflexivity.
    simpl. by rewrite <- !app_assoc.
Qed.

(** [vectorExists] when the lookup reaches the index. *)
Lemma vectorExists_answered id w :
  pineconeClient w = true ->
  lookup_answers w ->
  exists w',
    vectorExists id w = (Ok (bool_decide (is_Some (index w !! id))), w')
    /\ index w' = index w
    /\ pineconeClient w' = pineconeClient w
    /\ trace w' = trace w ++ [EvIndexFetch id].
Proof.
  intros Hclient Hlookup. unfold vectorExists.
  rewrite (bind_Ok client_ready _ w (pineconeClient w) w) by done.
  rewrite Hclient. change (negb true) with false. cbv iota.
  unfold try_catch, mbind, M_bind, bind, index_fetch.
  unfold lookup_answers in Hlookup.
  destruct (next (fetch_faults w) None) as [f rest]. simpl in Hlookup.
  subst f. by eexists.
Qed.

(** C5, as the code has it.  With the client initialised and the existence
    lookup answered by the index, [upsertVector] on an id that is present
    returns normally after that one lookup and leaves the index as it was;
    so does a second call. *)
Theorem upsertVector_existing id v metadata w :
  pineconeClient w = true ->
  is_Some (index w !! id) ->
  lookup_answers w ->
  let r := upsertVector id v metadata w in
  r.1 = Ok tt
  /\ index r.2 = index w
  /\ trace r.2 = trace w ++ [EvIndexFetch id]
  /\ (forall v' metadata',
        lookup_answers r.2 ->
        let r' := upsertVector id v' metadata' r.2 in
        r'.1 = Ok tt /\ index r'.2 = index w).
Proof.
  assert (Hone : forall v metadata w,
    pineconeClient w = true -> is_Some (index w !! id) -> lookup_answers w ->
    exists w', upsertVector id v metadata w = (Ok tt, w')
      /\ index w' = index w /\ pineconeClient w' = pineconeClient w
      /\ trace w' = trace w ++ [EvIndexFetch id]).
  { clear. intros v metadata w Hclient Hpresent Hlookup.
    destruct (vectorExists_answered id w Hclient Hlookup)
      as (w' & Hexists & Hidx & Hcl & Htr).
    rewrite bool_decide_eq_true_2 in Hexists by done.
    exists w'. split; [|done].
    unfold upsertVector, upsertVector_fuel.
    rewrite (bind_Ok client_ready _ w (pineconeClient w) w) by done.
    rewrite Hclient. change (negb true) with false. cbv iota.
    by rewrite (bind_Ok _ _ _ _ _ Hexists). }
  intros Hclient Hpresent Hlookup r.
  destruct (Hone v metadata w Hclient Hpresent Hlookup)
    as (w' & Hrun & Hidx & Hcl & Htr).
  subst r. rewrite Hrun. simpl.
  split; [done|]. split; [done|]. split; [done|].
  intros v' metadata' Hlookup'.
  destruct (Hone v' metadata' w') as (w'' & Hrun' & Hidx' & _);
    [congruence | by rewrite Hidx | done |].
  rewrite Hrun'. simpl. split; [done | congruence].
Qed.

(** [upsertVector] only talks to the store. *)
Lemma vectorExists_grew id : keeps (grew_by is_store_call) (vectorExists id).
Proof. unfold vectorExists. frame. Qed.

Lemma upsert_loop_grew fuel r n le :
  keeps (grew_by is_store_call) (upsert_loop fuel r n le).
Proof.
  revert n le. induction fuel as [|fuel IH]; intros n le; simpl; frame.
Qed.

#[local] Hint Resolve vectorExists_grew upsert_loop_grew : frame.

Lemma upsertVector_grew id v a :
  keeps (grew_by is_store_call) (upsertVector id v a).
Proof. unfold upsertVector, upsertVector_fuel. frame. Qed.

(** ** Ingestion *)

Section Ingestion.

Context {P : Platform}.

(** [handleUrlIngestion] on a valid address, step by step. *)
Lemma handleUrlIngestion_run u w :
  isValidUrl u = true ->
  handleUrlIngestion u w
  = match processUrl u w with
    | (Ok None, w1) => (Ok tt, w1)
    | (Ok (Some (article, v)), w1) =>
        match upsertVector u v article w1 with
        | (Ok _, w2) => (Ok tt, w2)
        | (Throw e, w2) =>
            (Throw (JsError (lit "URL processing failed: "
                             ++ lit "Vector storage failed: "
                             ++ message_or_string e)), w2)
        end
    | (Throw e, w1) =>
        (Throw (JsError (lit "URL processing failed: "
                         ++ message_or_string e)), w1)
    end.
Proof.
  intros Hu. unfold handleUrlIngestion.
  rewrite Hu, (isValidUrl_not_falsy _ Hu).
  change (false || negb true) with false. cbv iota.
  destruct (processUrl u w) as [[[[article v]|]|e] w1] eqn:Hproc.
  - destruct (upsertVector u v article w1) as [[[]|e] w2] eqn:Hup.
    + apply try_catch_Ok. rewrite (bind_Ok _ _ _ _ _ Hproc). cbv iota.
      apply try_catch_Ok. exact Hup.
    + erewrite try_catch_Throw; cycle 1.
      { rewrite (bind_Ok _ _ _ _ _ Hproc). cbv iota.
        erewrite try_catch_Throw by exact Hup. reflexivity. }
      done.
  - apply try_catch_Ok. by rewrite (bind_Ok _ _ _ _ _ Hproc).
  - by erewrite try_catch_Throw by (apply bind_Throw; exact Hproc).
Qed.

(** C2, as the code has it.  For an extracted article, the one text that
    ingestion submits to the embedding model is the title, then [". "],
    then the first 8000 code units of the content, the whole cut to its
    first 12000 code units; only calls to the store follow. *)
Theorem embedding_input u w html w1 article w2 :
  isValidUrl u = true ->
  fetchUrlContent u w = (Ok (Some html), w1) ->
  html <> [] ->
  cleanAndStructureHtml html u w1 = (Ok (Some article), w2) ->
  exists rest,
    trace (handleUrlIngestion u w).2
    = trace w2
      ++ EvEmbedContent
           (truncate_to MAX_EMBED_TEXT_LENGTH
              (a_title article ++ lit ". "
               ++ substring0 8000 (a_content article)))
         :: rest
    /\ Forall is_store_call rest.
Proof.
  intros Hu Hfetch Hhtml Hclean.
  rewrite (handleUrlIngestion_run _ _ Hu).
  erewrite processUrl_extracted by eassumption.
  match goal with
  | |- context [generateEmbeddings ?t w2] =>
      pose proof (generateEmbeddings_trace t w2) as Htrace;
      destruct (generateEmbeddings t w2) as [[v|e] w3]
  end; simpl in Htrace.
  - destruct (upsertVector_grew u v article w3) as (evs & Hevs & Hstore).
    exists evs. split; [|done].
    destruct (upsertVector u v article w3) as [[[]|e] w4]; simpl in *;
      by rewrite Hevs, Htrace, <- app_assoc.
  - exists []. split; [|done]. simpl. done.
Qed.

(** *** The dedup cache *)

(** [handleKafkaMessage] on an address that is not in the cache. *)
Lemma handleKafkaMessage_fresh message messageStr w :
  km_value message = Some messageStr ->
  message_url messageStr ∉ recentlyProcessedUrls w ->
  handleKafkaMessage message w
  = match handleUrlIngestion (message_url messageStr) w with
    | (Ok _, w1) => (Ok tt, remember (message_url messageStr) w1)
    | (Throw _, w1) => (Ok tt, w1)
    end.
Proof.
  intros Hvalue Hfresh. unfold handleKafkaMessage. rewrite Hvalue. cbv zeta.
  unfold try_catch at 1.
  rewrite (bind_Ok (cache_has _) _ w false w)
    by (unfold cache_has; by rewrite bool_decide_eq_false_2).
  cbv iota.
  destruct (handleUrlIngestion _ w) as [[[]|e] w1] eqn:Hingest.
  - rewrite (bind_Ok _ _ _ _ _ Hingest).
    unfold mbind, M_bind, bind, cache_add, cache_size, cache_clear, remember.
    cbv zeta. by destruct (MAX_CACHE_SIZE <? _).
  - by rewrite (bind_Throw _ _ _ _ _ Hingest).
Qed.

(** [handleKafkaMessage] on an address that is in the cache. *)
Lemma handleKafkaMessage_skip message messageStr w :
  km_value message = Some messageStr ->
  message_url messageStr ∈ recentlyProcessedUrls w ->
  handleKafkaMessage message w = (Ok tt, w).
Proof.
  intros Hvalue Hseen. unfold handleKafkaMessage. rewrite Hvalue. cbv zeta.
  apply try_catch_Ok.
  by rewrite (bind_Ok (cache_has _) _ w true w)
    by (unfold cache_has; by rewrite bool_decide_eq_true_2).
Qed.

(** The expiry timer empties the cache. *)
Lemma cacheExpiryTick_clears w :
  (cacheExpiryTick w).1 = Ok tt
  /\ recentlyProcessedUrls (cacheExpiryTick w).2 = ∅.
Proof.
  unfold cacheExpiryTick, mbind, M_bind, bind, cache_size, cache_clear.
  destruct (Z.ltb_spec 0 (Z.of_nat (size (recentlyProcessedUrls w))));
    simpl; [done|].
  split; [done|]. apply leibniz_equiv, size_empty_inv. lia.
Qed.

(** Adding an address to a full cache empties it, the new address
    included. *)
Lemma remember_at_cap u w :
  u ∉ recentlyProcessedUrls w ->
  Z.of_nat (size (recentlyProcessedUrls w)) = MAX_CACHE_SIZE ->
  recentlyProcessedUrls (remember u w) = ∅.
Proof.
  intros Hfresh Hsize. unfold remember. cbv zeta. simpl recentlyProcessedUrls.
  rewrite size_union by set_solver. rewrite size_singleton.
  destruct (Z.ltb_spec MAX_CACHE_SIZE
              (Z.of_nat (1 + size (recentlyProcessedUrls w)))); [done | lia].
Qed.


(** C10. An address enters the cache only when its ingestion has returned:
    if [handleUrlIngestion] throws, the handler swallows the error, the
    address is still absent from the cache, and a second delivery of the
    message makes the calls of a fresh ingestion. *)
Theorem cache_records_completed_ingestions message messageStr w :
  km_value message = Some messageStr ->
  let u := message_url messageStr in
  u ∉ recentlyProcessedUrls w ->
  let r := handleKafkaMessage message w in
  (u ∈ recentlyProcessedUrls r.2 ->
   exists w1, handleUrlIngestion u w = (Ok tt, w1))
  /\ (forall e w1,
        handleUrlIngestion u w = (Throw e, w1) ->
        r = (Ok tt, w1)
        /\ (u ∉ recentlyProcessedUrls w1)
        /\ trace (handleKafkaMessage message w1).2
           = trace (handleUrlIngestion u w1).2).
Proof.
  intros Hvalue u Hfresh r. subst r.
  rewrite (handleKafkaMessage_fresh _ _ _ Hvalue Hfresh). fold u.
  pose proof (handleUrlIngestion_same_cache u w) as Hcache.
  unfold same_cache in Hcache.
  destruct (handleUrlIngestion u w) as [[[]|e] w1] eqn:Hingest;
    simpl in Hcache.
  - split; [by eexists | by intros e w2 [=]].
  - split.
    + simpl. rewrite Hcache. done.
    + intros e' w2 [= <- <-]. split; [done|].
      assert (Hfresh1 : u ∉ recentlyProcessedUrls w1) by by rewrite Hcache.
      split; [done|].
      rewrite (handleKafkaMessage_fresh _ _ _ Hvalue Hfresh1). fold u.
      destruct (handleUrlIngestion u w1) as [[[]|e2] w2]; [|done].
      unfold remember. cbv zeta. by destruct (MAX_CACHE_SIZE <? _).
Qed.

End Ingestion.

(** ** The program on concrete worlds *)

Module Runs.

Import Demo.

(** The embedding step raises after a successful extraction, and ingestion
    returns normally. *)
Lemma embedding_failure_not_raised :
  let w := embedding_down in
  let fetched := fetchUrlContent article_url w in
  let structured :=
    cleanAndStructureHtml (P := platform)
      (lit "<html><h1>A</h1><p>B</p></html>") article_url fetched.2 in
  let embedded :=
    generateEmbeddings (lit "A" ++ lit ". " ++ substring0 8000 (lit "B"))
      structured.2 in
  fetched.1 = Ok (Some (lit "<html><h1>A</h1><p>B</p></html>"))
  /\ structured.1 = Ok (Some article)
  /\ embedded.1
     = Throw (JsError (lit "Gemini embedding generation failed: 503 Service Unavailable"))
  /\ (handleUrlIngestion (P := platform) article_url w).1 = Ok tt.
Proof. vm_compute. done. Qed.

Lemma handleUrlIngestion_embedding_failure_witness :
  exists w3,
    processUrl (P := platform) article_url embedding_down = (Ok None, w3)
    /\ handleUrlIngestion (P := platform) article_url embedding_down
       = (Ok tt, w3)
    /\ index w3 = index embedding_down.
Proof.
  eexists.
  eapply (handleUrlIngestion_embedding_failure (P := platform) article_url
            embedding_down (lit "<html><h1>A</h1><p>B</p></html>") _ article).
  - vm_compute. reflexivity.
  - vm_compute. reflexivity.
  - vm_compute. discriminate.
  - vm_compute. reflexivity.
  - vm_compute. reflexivity.
Defined.

(** The content is cut to 8000 code units before the title is put in front:
    the text submitted is one code unit shorter than title, separator and
    content together, although these fit within the cap. *)
Lemma embedding_input_cuts_content :
  let a := mkArticle (lit "A") long_content article_url (lit "2024-01-01") in
  let submitted := lit "A. " ++ replicate (Z.to_nat 8000) 97%N in
  (processUrl (P := platform) article_url long_article).1
  = Ok (Some (a, some_vector))
  /\ trace (handleUrlIngestion (P := platform) article_url long_article).2
       !! 2%nat
     = Some (EvEmbedContent submitted)
  /\ submitted
     <> truncate_to MAX_EMBED_TEXT_LENGTH
          (a_title a ++ lit ". " ++ a_content a).
Proof.
  split; [vm_compute; reflexivity|]. split; [vm_compute; reflexivity|].
  intros E. apply (f_equal jslength) in E. vm_compute in E. discriminate.
Qed.

Lemma embedding_input_witness :
  exists rest,
    trace (handleUrlIngestion (P := platform) article_url all_up).2
    = [EvFetch article_url;
       EvGenerateContent true
         (structuring_prompt (lit "<html><h1>A</h1><p>B</p></html>"))]
      ++ EvEmbedContent (lit "A. B") :: rest
    /\ Forall is_store_call rest.
Proof.
  destruct (embedding_input (P := platform) article_url all_up
              (lit "<html><h1>A</h1><p>B</p></html>")
              (fetchUrlContent article_url all_up).2
              article
              (cleanAndStructureHtml (P := platform)
                 (lit "<html><h1>A</h1><p>B</p></html>") article_url
                 (fetchUrlContent article_url all_up).2).2)
    as (rest & Htrace & Hstore).
  - vm_compute. reflexivity.
  - vm_compute. reflexivity.
  - vm_compute. discriminate.
  - vm_compute. reflexivity.
  - exists rest. split; [exact Htrace | exact Hstore].
Defined.

(** In URL mode the article is extracted, text generation fails, and the
    response has no sources. *)
Lemma url_mode_generation_failure_drops_source :
  let w := generation_down in
  let processed := processUrl (P := platform) article_url w in
  processed.1 = Ok (Some (article, some_vector))
  /\ (generateText (summary_prompt article) processed.2).1
     = Throw (JsError (lit "Gemini text generation failed: 503 Service Unavailable"))
  /\ (handleQuery (P := platform) {| query := article_url |} w).1
     = Ok {| answer := lit "Encountered an error while processing this URL.";
             sources := [] |}
  /\ (handleQuery (P := platform) {| query := article_url |} w).1
     <> Ok {| answer := lit "Encountered an error while processing this URL.";
              sources := [mkSource (lit "A") article_url (lit "2024-01-01") None] |}.
Proof. vm_compute. repeat split; try reflexivity. discriminate. Qed.

Lemma generation_failure_responses_witness :
  (handleQuery (P := platform) {| query := question |} kb_generation_down).1
  = Ok {| answer := lit "Couldn't generate a response.";
          sources := [mkSource (lit "A") article_url (lit "2024-01-01") None] |}
  /\ (handleQuery (P := platform) {| query := article_url |} generation_down).1
     = Ok {| answer := lit "Encountered an error while processing this URL.";
             sources := [] |}.
Proof.
  destruct (generation_failure_responses (P := platform)) as [Hkb Hurl].
  split.
  - erewrite Hkb; cycle 1.
    + vm_compute. reflexivity.
    + vm_compute. reflexivity.
    + vm_compute. reflexivity.
    + vm_compute. reflexivity.
    + reflexivity.
  - erewrite Hurl; cycle 1.
    + vm_compute. reflexivity.
    + vm_compute. reflexivity.
    + vm_compute. reflexivity.
    + reflexivity.
Defined.

Lemma upsertVector_retries_witness :
  (let r := upsertVector article_url some_vector article flaky_writes in
   trace r.2
   = [EvIndexFetch article_url;
      EvIndexUpsert stored; EvSetTimeout 2000;
      EvIndexUpsert stored; EvSetTimeout 4000;
      EvIndexUpsert stored]
   /\ r.1 = Ok tt
   /\ index r.2 !! article_url = Some stored)
  /\ (let r := upsertVector article_url some_vector article failing_writes in
      trace r.2
      = [EvIndexFetch article_url;
         EvIndexUpsert stored; EvSetTimeout 2000;
         EvIndexUpsert stored; EvSetTimeout 4000;
         EvIndexUpsert stored]
      /\ r.1 = Throw (JsError (lit "Failed to upsert vector to Pinecone: 503 Service Unavailable"))
      /\ index r.2 !! article_url = None).
Proof.
  split.
  - destruct (upsertVector_retries article_url some_vector article
                flaky_writes (vectorExists article_url flaky_writes).2
                outage outage None [])
      as (Htrace & Hok & Hindex).
    + reflexivity.
    + vm_compute. reflexivity.
    + reflexivity.
    + cbv zeta. rewrite Htrace, Hok, Hindex. split; [reflexivity|].
      split; [reflexivity|]. apply lookup_insert_eq.
  - destruct (upsertVector_retries article_url some_vector article
                failing_writes (vectorExists article_url failing_writes).2
                outage outage (Some outage) [])
      as (Htrace & Hthrow & Hindex).
    + reflexivity.
    + vm_compute. reflexivity.
    + reflexivity.
    + cbv zeta. rewrite Htrace, Hthrow, Hindex. split; [reflexivity|].
      split; [reflexivity|]. apply lookup_empty.
Defined.

(** The article is in the index and the existence lookup fails: the write
    that follows replaces the stored record; and when the writes fail as
    well, the call throws. *)
Lemma upsertVector_overwrites_when_lookup_fails :
  let r := upsertVector article_url other_vector revised lookup_down in
  let r' :=
    upsertVector article_url other_vector revised lookup_and_writes_down in
  index lookup_down !! article_url = Some stored
  /\ r.1 = Ok tt
  /\ index r.2 !! article_url
     = Some (mkRecord article_url other_vector revised)
  /\ index r.2 <> index lookup_down
  /\ index lookup_and_writes_down !! article_url = Some stored
  /\ r'.1 = Throw (JsError (lit "Failed to upsert vector to Pinecone: 503 Service Unavailable")).
Proof.
  assert (Hrun : upsertVector article_url other_vector revised lookup_down
    = (Ok tt,
       set_index (<[article_url := mkRecord article_url other_vector revised]>
                    (index lookup_down))
         (set_upsert_faults []
            (record_event
               (EvIndexUpsert (mkRecord article_url other_vector revised))
               (set_fetch_faults []
                  (record_event (EvIndexFetch article_url) lookup_down)))))).
  { rewrite (upsertVector_absent _ _ _ _
               (set_fetch_faults []
                  (record_event (EvIndexFetch article_url) lookup_down)));
      reflexivity. }
  cbv zeta. rewrite Hrun.
  assert (Hold : index lookup_down !! article_url = Some stored)
    by apply lookup_singleton_eq.
  split; [exact Hold|]. split; [reflexivity|].
  assert (Hnew : index (set_index
                   (<[article_url := mkRecord article_url other_vector revised]>
                      (index lookup_down))
                   (set_upsert_faults []
                      (record_event
                         (EvIndexUpsert (mkRecord article_url other_vector revised))
                         (set_fetch_faults []
                            (record_event (EvIndexFetch article_url) lookup_down)))))
                 !! article_url
               = Some (mkRecord article_url other_vector revised))
    by apply lookup_insert_eq.
  split; [exact Hnew|].
  split; [intros E; cbn [snd] in E; rewrite E, Hold in Hnew; discriminate|].
  split; [exact Hold|].
  rewrite (upsertVector_absent _ _ _ _
             (set_fetch_faults []
                (record_event (EvIndexFetch article_url)
                   lookup_and_writes_down))) by reflexivity.
  reflexivity.
Qed.

Lemma upsertVector_existing_witness :
  let r := upsertVector article_url other_vector revised ingested in
  r.1 = Ok tt
  /\ index r.2 = index ingested
  /\ trace r.2 = [EvIndexFetch article_url].
Proof.
  destruct (upsertVector_existing article_url other_vector revised ingested)
    as (Hok & Hindex & Htrace & _).
  - reflexivity.
  - exists stored. apply lookup_singleton_eq.
  - reflexivity.
  - cbv zeta. rewrite Hok, Hindex, Htrace. done.
Defined.

Lemma handleQuery_never_throws_witness :
  handleQuery_with (P := platform)
    (fun _ => throw outage) (fun _ => throw outage)
    {| query := article_url |} started
  = (Ok generic_fallback, started).
Proof.
  destruct (handleQuery_never_throws (P := platform)
              {| query := article_url |} started) as [_ Hwith].
  destruct (Hwith (fun _ => throw outage) (fun _ => throw outage))
    as [_ Hcatch].
  apply (Hcatch outage started). vm_compute. reflexivity.
Defined.

Lemma handleQuery_sources_no_content_witness :
  exists w',
    handleQuery (P := platform) {| query := question |} kb_answered
    = (Ok {| answer := lit "An answer.";
             sources := [mkSource (lit "A") article_url (lit "2024-01-01") None] |},
       w')
    /\ Forall (fun s => content s = None)
         [mkSource (lit "A") article_url (lit "2024-01-01") None].
Proof.
  eexists. split.
  - vm_compute. reflexivity.
  - apply (handleQuery_sources_no_content (P := platform)
             {| query := question |} kb_answered
             {| answer := lit "An answer.";
                sources := [mkSource (lit "A") article_url (lit "2024-01-01") None] |}
             (handleQuery (P := platform) {| query := question |} kb_answered).2).
    vm_compute. reflexivity.
Defined.

Lemma raw_message_url :
  message_url (P := platform) article_url = article_url.
Proof. vm_compute. reflexivity. Qed.

Lemma envelope_message_url :
  message_url (P := platform) (envelope_doc article_url) = article_url.
Proof. vm_compute. reflexivity. Qed.


Lemma handleQuery_no_matches_witness :
  exists w2,
    handleQuery (P := platform) {| query := question |} kb_no_match
    = (Ok {| answer := lit "No information related to the query in our knowledge base.";
             sources := [] |}, w2).
Proof.
  eexists.
  eapply (handleQuery_no_matches (P := platform) question kb_no_match).
  - vm_compute. reflexivity.
  - vm_compute. reflexivity.
  - vm_compute. reflexivity.
Defined.

Lemma cache_records_completed_ingestions_witness :
  exists w1,
    handleKafkaMessage (P := platform) raw_message storage_down = (Ok tt, w1)
    /\ (handleUrlIngestion (P := platform) article_url storage_down).1
       = Throw (JsError (lit "URL processing failed: Vector storage failed: Failed to upsert vector to Pinecone: 503 Service Unavailable"))
    /\ (article_url ∉ recentlyProcessedUrls w1)
    /\ trace (handleKafkaMessage (P := platform) raw_message w1).2
       = trace (handleUrlIngestion (P := platform) article_url w1).2.
Proof.
  destruct (cache_records_completed_ingestions (P := platform) raw_message
              article_url storage_down) as [_ Hthrow].
  - reflexivity.
  - rewrite raw_message_url. simpl. set_solver.
  - destruct (Hthrow
        (JsError (lit "URL processing failed: Vector storage failed: Failed to upsert vector to Pinecone: 503 Service Unavailable"))
        (handleUrlIngestion (P := platform) article_url storage_down).2)
      as (Hrun & Hout & Hagain).
    + vm_compute. reflexivity.
    + eexists. split; [exact Hrun|]. split; [vm_compute; reflexivity|].
      split; [|exact Hagain].
      by rewrite raw_message_url in Hout.
Defined.

End Runs.

(** * Further properties *)

(** ** Truncation *)

Lemma jslength_nonneg s : 0 <= jslength s.
Proof. unfold jslength. lia. Qed.

Lemma substring0_length n s :
  jslength (substring0 n s) = Z.min (Z.max 0 n) (jslength s).
Proof. unfold jslength, substring0. rewrite length_take. lia. Qed.

Lemma truncate_to_prefix max s : truncate_to max s `prefix_of` s.
Proof.
  unfold truncate_to. destruct (max <? jslength s); [|done].
  apply prefix_take.
Qed.

Lemma truncate_to_length max s :
  0 <= max -> jslength (truncate_to max s) <= max.
Proof.
  intros Hmax. unfold truncate_to.
  destruct (Z.ltb_spec max (jslength s)); [|done].
  rewrite substring0_length. lia.
Qed.

Lemma truncate_to_short max s : jslength s <= max -> truncate_to max s = s.
Proof.
  intros Hs. unfold truncate_to. by destruct (Z.ltb_spec max (jslength s)); [lia|].
Qed.

(** X1. [truncateString] keeps a string that fits; a longer one becomes its
    first [maxLength] code units followed by three dots.  Either way the
    result has at most [maxLength + 3] code units and its first [maxLength]
    code units are those of the input. *)
Theorem truncateString_bounded s max :
  0 <= max ->
  jslength (truncateString s max) <= max + 3
  /\ substring0 max (truncateString s max) = substring0 max s
  /\ (jslength s <= max -> truncateString s max = s)
  /\ (max < jslength s ->
      truncateString s max = substring0 max s ++ lit "..."
      /\ jslength (truncateString s max) = max + 3).
Proof.
  intros Hmax. unfold truncateString.
  destruct (Z.leb_spec (jslength s) max) as [Hle|Hgt].
  - rewrite orb_true_r. split; [lia|]. split; [done|]. split; [done|]. lia.
  - destruct s as [|c s]; [unfold jslength in Hgt; simpl in Hgt; lia|].
    simpl falsy. simpl orb. cbv iota.
    assert (Hlen : jslength (substring0 max (c :: s) ++ lit "...") = max + 3).
    { unfold jslength. rewrite length_app.
      change (length (lit "...")) with 3%nat.
      pose proof (substring0_length max (c :: s)) as H.
      unfold jslength in H, Hgt. lia. }
    split; [lia|]. split.
    + unfold substring0. rewrite take_app_le, take_idemp; [done|].
      rewrite length_take. unfold jslength in Hgt. lia.
    + split; [lia | done].
Qed.

(** ** The query endpoint *)

Lemma trimStart_suffix s : trimStart s `suffix_of` s.
Proof.
  induction s as [|c s IH]; simpl; [done|].
  destruct (is_white_space c); [by apply suffix_cons_r | done].
Qed.

Lemma trimStart_head s c :
  head (trimStart s) = Some c -> is_white_space c = false.
Proof.
  induction s as [|d s IH]; simpl; [done|].
  destruct (is_white_space d) eqn:E; [done|]. simpl. by intros [= <-].
Qed.

Lemma trimStart_nil s :
  trimStart s = [] -> Forall (fun c => is_white_space c = true) s.
Proof.
  induction s as [|d s IH]; simpl; [done|].
  destruct (is_white_space d) eqn:E; [|discriminate].
  intros H. constructor; auto.
Qed.

Lemma trimStart_fixed s c :
  head s = Some c -> is_white_space c = false -> trimStart s = s.
Proof. destruct s as [|d s]; simpl; [done|]. intros [= ->] ->. done. Qed.

Lemma trimEnd_prefix s : trimEnd s `prefix_of` s.
Proof.
  unfold trimEnd. destruct (trimStart_suffix (reverse s)) as [k Hk].
  exists (reverse k).
  transitivity (reverse (k ++ trimStart (reverse s))).
  - by rewrite <- Hk, reverse_involutive.
  - by rewrite reverse_app.
Qed.

Lemma trimEnd_last s c :
  last (trimEnd s) = Some c -> is_white_space c = false.
Proof. unfold trimEnd. rewrite last_reverse. apply trimStart_head. Qed.

Lemma trimEnd_fixed s c :
  last s = Some c -> is_white_space c = false -> trimEnd s = s.
Proof.
  intros Hlast Hc. unfold trimEnd.
  rewrite (trimStart_fixed (reverse s) c), reverse_involutive; try done.
  by rewrite head_reverse.
Qed.

(** A string that starts with a code unit that is kept still starts with it
    after [trimEnd]. *)
Lemma trimEnd_head s c :
  head s = Some c -> is_white_space c = false -> head (trimEnd s) = Some c.
Proof.
  intros Hhead Hc.
  destruct (trimEnd_prefix s) as [k Hk].
  destruct (trimEnd s) as [|d t] eqn:E.
  - unfold trimEnd in E.
    apply (f_equal reverse) in E. rewrite reverse_involutive in E.
    simpl in E. apply trimStart_nil in E.
    apply head_Some in Hhead as [s' ->].
    rewrite reverse_cons, Forall_app, Forall_singleton in E.
    destruct E as [_ E]. congruence.
  - rewrite Hk in Hhead. simpl in *. done.
Qed.

(** What [trim] returns is empty or starts and ends with code units that
    are kept, and trimming it again changes nothing. *)
Lemma trim_shape s :
  trim (trim s) = trim s
  /\ (forall c, head (trim s) = Some c -> is_white_space c = false)
  /\ (forall c, last (trim s) = Some c -> is_white_space c = false).
Proof.
  assert (Hhead : forall c, head (trim s) = Some c -> is_white_space c = false).
  { intros c Hc. unfold trim in Hc.
    destruct (trimStart s) as [|d t] eqn:E; [done|].
    assert (Hd : is_white_space d = false)
      by (apply (trimStart_head s); by rewrite E).
    rewrite (trimEnd_head (d :: t) d) in Hc by done. congruence. }
  assert (Hlast : forall c, last (trim s) = Some c -> is_white_space c = false)
    by (intros c; apply trimEnd_last).
  split; [|done].
  destruct (trim s) as [|d t] eqn:E; [done|].
  unfold trim at 1.
  rewrite (trimStart_fixed (d :: t) d) by (try done; by apply Hhead).
  destruct (last (d :: t)) as [c|] eqn:El.
  - by rewrite (trimEnd_fixed _ c) by (try done; by apply Hlast).
  - by apply last_None in El.
Qed.

Lemma validateQueryPayload_rejected q reply :
  validateQueryPayload q = inl reply -> reply_status reply = 400.
Proof.
  destruct q as [|s|b]; simpl; try by intros [= <-].
  destruct (falsy s || falsy (trim s)); [by intros [= <-] | done].
Qed.

(** X2. The middleware lets a body through exactly when its [query] is a
    string with a code unit that [trim] keeps; the query handed on is that
    string trimmed (not empty, and unchanged by trimming again).  Every
    other body is answered with status 400. *)
Theorem validateQueryPayload_accepts q :
  match validateQueryPayload q with
  | inl reply =>
      reply_status reply = 400
      /\ match q with QueryString s => trim s = [] | _ => True end
  | inr payload =>
      exists s,
        q = QueryString s
        /\ query payload = trim s
        /\ query payload <> []
        /\ trim (query payload) = query payload
  end.
Proof.
  destruct q as [|s|b]; simpl; try done.
  destruct s as [|c s]; [done|]. simpl falsy at 1. simpl orb.
  destruct (trim (c :: s)) as [|d t] eqn:E; simpl; [done|].
  exists (c :: s). rewrite E. split; [done|]. split; [done|]. split; [done|].
  rewrite <- E. apply trim_shape.
Qed.

Section MoreProperties.

Context {P : Platform}.

(** The router's chain never takes its own 500 branch.  A body the
    middleware rejects is answered 400 without any call being made; any
    other body is answered 200 with the response of [handleQuery] to the
    trimmed query. *)
Lemma postAgent_replies q w :
  match validateQueryPayload q with
  | inl reply => postAgent q w = (Ok reply, w) /\ reply_status reply = 400
  | inr payload =>
      exists response w',
        handleQuery payload w = (Ok response, w')
        /\ postAgent q w
           = (Ok {| reply_status := 200; reply_body := AnswerReply response |},
              w')
  end.
Proof.
  pose proof (validateQueryPayload_rejected q) as Hv.
  unfold postAgent.
  destruct (validateQueryPayload q) as [reply|payload].
  - split; [done | by apply Hv].
  - destruct (handleQuery_with_total handleUrlQuery handleKnowledgeBaseQuery
                payload w) as (response & w' & Hrun).
    exists response, w'. split; [exact Hrun|].
    unfold agentRoute. apply try_catch_Ok.
    by rewrite (bind_Ok _ _ _ _ _ Hrun).
Qed.

(** *** The text and embedding models *)

Lemma generateText_run p w :
  generateText p w
  = match textModel_generateContent false p w with
    | (Ok text, w') => (Ok text, w')
    | (Throw e, w') =>
        (Throw (JsError (lit "Gemini text generation failed: "
                         ++ message_or_unknown e)), w')
    end.
Proof.
  unfold generateText, try_catch.
  by destruct (textModel_generateContent false p w) as [[text|e] w'].
Qed.

Lemma generateContent_trace j p w :
  trace (textModel_generateContent j p w).2
  = trace w ++ [EvGenerateContent j p].
Proof. unfold textModel_generateContent. by destruct (next _ _). Qed.

(** X4. [generateText] makes one call to the text model, with the prompt
    as given and not in JSON mode.  It returns the model's text unchanged;
    whatever goes wrong, it throws an [Error] whose message starts with
    the stage label. *)
Theorem generateText_outcome p w :
  trace (generateText p w).2 = trace w ++ [EvGenerateContent false p]
  /\ match (generateText p w).1,
          (textModel_generateContent false p w).1 with
     | Ok text, Ok text' => text = text'
     | Throw e, Throw e' =>
         e = JsError (lit "Gemini text generation failed: "
                      ++ message_or_unknown e')
     | _, _ => False
     end.
Proof.
  rewrite generateText_run.
  pose proof (generateContent_trace false p w) as Htrace.
  by destruct (textModel_generateContent false p w) as [[text|e] w'].
Qed.

(** X5. [generateEmbeddings] makes one call to the embedding model.  The
    text it submits is a prefix of its input of at most 12000 code units,
    the input itself when that fits.  A failure of the model, or an answer
    without values, is thrown as an [Error] with the stage label. *)
Theorem generateEmbeddings_submits t w :
  exists submitted,
    trace (generateEmbeddings t w).2 = trace w ++ [EvEmbedContent submitted]
    /\ submitted `prefix_of` t
    /\ jslength submitted <= 12000
    /\ (jslength t <= 12000 -> submitted = t)
    /\ match (generateEmbeddings t w).1 with
       | Ok _ => True
       | Throw e =>
           exists m,
             e = JsError (lit "Gemini embedding generation failed: " ++ m)
       end.
Proof.
  exists (truncate_to MAX_EMBED_TEXT_LENGTH t).
  split; [apply generateEmbeddings_trace|].
  split; [apply truncate_to_prefix|].
  split; [by apply truncate_to_length|].
  split; [apply truncate_to_short|].
  unfold generateEmbeddings, try_catch, mbind, M_bind, bind. cbv zeta.
  destruct (embedModel_embedContent _ w) as [[[v|]|e] w']; simpl;
    [done | by eexists | by eexists].
Qed.

(** *** Extraction *)

Lemma cleanAndStructureHtml_shape html u w a w' :
  cleanAndStructureHtml html u w = (Ok (Some a), w') ->
  a_url a = u /\ a_title a <> [].
Proof.
  unfold cleanAndStructureHtml, try_catch, mbind, M_bind, bind, ret.
  cbv zeta. intros E. repeat case_match; simplify_eq. simpl. split; [done|].
  unfold opt_or_default, or_default.
  destruct (j_title _) as [[|c t]|]; done.
Qed.

(** X6. [cleanAndStructureHtml] never throws.  It makes one JSON-mode call
    whose prompt embeds at most the first 120000 code units of the page;
    an article it returns carries the address it was given and a title
    that is not empty. *)
Theorem cleanAndStructureHtml_result html u w :
  exists r w',
    cleanAndStructureHtml html u w = (Ok r, w')
    /\ trace w'
       = trace w
         ++ [EvGenerateContent true
               (structuring_prompt (truncate_to MAX_HTML_LENGTH html))]
    /\ truncate_to MAX_HTML_LENGTH html `prefix_of` html
    /\ jslength (truncate_to MAX_HTML_LENGTH html) <= 120000
    /\ match r with
       | Some a => a_url a = u /\ a_title a <> []
       | None => True
       end.
Proof.
  destruct (try_catch_total
              (A := option Article)
              (responseText ← textModel_generateContent true
                 (structuring_prompt (truncate_to MAX_HTML_LENGTH html));
               if falsy responseText then ret None
               else
                 match JSON_parse_structured responseText with
                 | None => ret None
                 | Some jsonData =>
                     ret (Some {|
                       a_title := opt_or_default (j_title jsonData)
                                    (lit "Untitled Article");
                       a_content := opt_or_default (j_content jsonData) [];
                       a_date := opt_or_default (j_date jsonData) [];
                       a_url := u |})
                 end)
              (fun _ => ret None)
              ltac:(intros e w0; by eexists _, _) w) as (r & w' & Hrun).
  change (cleanAndStructureHtml html u w = (Ok r, w')) in Hrun.
  exists r, w'. split; [exact Hrun|].
  split.
  { revert Hrun.
    unfold cleanAndStructureHtml, try_catch, mbind, M_bind, bind, ret.
    cbv zeta.
    pose proof (generateContent_trace true
      (structuring_prompt (truncate_to MAX_HTML_LENGTH html)) w) as Htrace.
    destruct (textModel_generateContent true _ w) as [[text|e] w1];
      simpl in Htrace; intros E; repeat case_match; simplify_eq; done. }
  split; [apply truncate_to_prefix|].
  split; [by apply truncate_to_length|].
  destruct r as [a|]; [|done].
  by apply (cleanAndStructureHtml_shape html u w a w').
Qed.

Lemma fetch_trace u w : trace (fetch u w).2 = trace w ++ [EvFetch u].
Proof. unfold fetch. by destruct (next _ _). Qed.

(** X7. [fetchUrlContent] never throws and makes one request.  It returns
    the page exactly when the request resolves to a response that is [ok]
    and whose body can be read; a rejected request, a response that is
    not [ok] and an unreadable body all give [null]. *)
Theorem fetchUrlContent_result u w :
  exists r w',
    fetchUrlContent u w = (Ok r, w')
    /\ trace w' = trace w ++ [EvFetch u]
    /\ forall html,
         r = Some html
         <-> exists status rest,
               net w = Ok (mkResponse true status (Ok html)) :: rest.
Proof.
  pose proof (fetch_trace u w) as Htrace.
  unfold fetchUrlContent, try_catch, mbind, M_bind, bind, ret, of_result.
  revert Htrace. unfold fetch.
  destruct (net w) as [|[[ok status [text|e]]|e] rest]; simpl; intros Htrace.
  - eexists _, _. split; [done|]. split; [done|].
    intros html. split; [done | by intros (? & ? & ?)].
  - destruct ok; simpl.
    + eexists _, _. split; [done|]. split; [done|].
      intros html. split.
      * intros [= ->]. by eexists _, _.
      * by intros (? & ? & [= -> ->]).
    + eexists _, _. split; [done|]. split; [done|].
      intros html. split; [done | by intros (? & ? & ?)].
  - destruct ok; simpl; eexists _, _; (split; [done|]); (split; [done|]);
      intros html; (split; [done | by intros (? & ? & ?)]).
  - eexists _, _. split; [done|]. split; [done|].
    intros html. split; [done | by intros (? & ? & ?)].
Qed.

Lemma processUrl_total u w : exists r w', processUrl u w = (Ok r, w').
Proof. apply try_catch_total. intros e w0. by eexists _, _. Qed.

Lemma processUrl_invalid u w :
  isValidUrl u = false -> processUrl u w = (Ok None, w).
Proof.
  intros Hu. unfold processUrl. rewrite Hu.
  rewrite orb_true_r. done.
Qed.

Lemma processUrl_some u w a v w' :
  processUrl u w = (Ok (Some (a, v)), w') ->
  isValidUrl u = true /\ a_url a = u /\ a_title a <> [].
Proof.
  intros Hrun.
  destruct (isValidUrl u) eqn:Hu;
    [|by rewrite (processUrl_invalid _ _ Hu) in Hrun].
  split; [done|]. revert Hrun. unfold processUrl.
  rewrite Hu, (isValidUrl_not_falsy _ Hu).
  change (false || negb true) with false. cbv iota.
  unfold try_catch at 1. unfold mbind, M_bind, bind, ret.
  destruct (fetchUrlContent u w) as [[[html|]|e] w1]; simpl; try done.
  destruct (falsy html); simpl; [done|].
  destruct (cleanAndStructureHtml html u w1) as [[[a'|]|e] w2] eqn:Hclean;
    try done.
  destruct (generateEmbeddings _ w2) as [[v'|e] w3]; [|done].
  intros [= -> -> ->]. by apply (cleanAndStructureHtml_shape html u w1 a w2).
Qed.

(** X8. [processUrl] never throws and never writes: index, client and
    dedup cache are as before.  An address that is not a valid URL gives
    [null] without any call being made.  A result it returns is for a
    valid address, with an article that carries that address and a title
    that is not empty. *)
Theorem processUrl_result u w :
  exists r w',
    processUrl u w = (Ok r, w')
    /\ read_only w w'
    /\ (isValidUrl u = false -> r = None /\ w' = w)
    /\ match r with
       | Some (a, _) => isValidUrl u = true /\ a_url a = u /\ a_title a <> []
       | None => True
       end.
Proof.
  destruct (processUrl_total u w) as (r & w' & Hrun).
  exists r, w'. split; [exact Hrun|]. split.
  { pose proof (processUrl_same_store u w) as H1.
    pose proof (processUrl_same_cache u w) as H2.
    rewrite Hrun in H1, H2. by split. }
  split.
  { intros Hu. rewrite (processUrl_invalid _ _ Hu) in Hrun.
    by injection Hrun as <- <-. }
  destruct r as [[a v]|]; [|done]. by apply (processUrl_some u w a v w').
Qed.

End MoreProperties.

(** ** The vector store adapter, continued *)

Lemma index_fetch_trace id w :
  trace (index_fetch id w).2 = trace w ++ [EvIndexFetch id].
Proof. unfold index_fetch. by destruct (next _ _) as [[]]. Qed.

(** [vectorExists] with the client initialised. *)
Lemma vectorExists_run id w :
  pineconeClient w = true ->
  exists w',
    vectorExists id w
    = (Ok (match (next (fetch_faults w) None).1 with
           | Some _ => false
           | None => bool_decide (is_Some (index w !! id))
           end), w')
    /\ trace w' = trace w ++ [EvIndexFetch id]
    /\ index w' = index w
    /\ pineconeClient w' = true.
Proof.
  intros Hclient. unfold vectorExists.
  rewrite (bind_Ok client_ready _ w (pineconeClient w) w) by done.
  rewrite Hclient. change (negb true) with false. cbv iota.
  unfold try_catch, mbind, M_bind, bind, index_fetch.
  destruct (next (fetch_faults w) None) as [[e|] rest]; simpl;
    by eexists.
Qed.

(** X9. With the client initialised, [vectorExists] never throws: it makes
    one lookup, leaves the index alone, and says whether the id is in the
    index -- or [false] when the lookup itself fails. *)
Theorem vectorExists_result id w :
  pineconeClient w = true ->
  exists b w',
    vectorExists id w = (Ok b, w')
    /\ trace w' = trace w ++ [EvIndexFetch id]
    /\ index w' = index w
    /\ b = match (next (fetch_faults w) None).1 with
           | Some _ => false
           | None => bool_decide (is_Some (index w !! id))
           end.
Proof.
  intros Hclient.
  destruct (vectorExists_run id w Hclient) as (w' & Hrun & Htrace & Hindex & _).
  by eexists _, w'.
Qed.

Lemma upsertVector_no_client id v metadata w :
  pineconeClient w = false ->
  upsertVector id v metadata w
  = (Throw (JsError (lit "Pinecone client not initialized. Call initializePinecone() first.")), w).
Proof.
  intros Hclient. unfold upsertVector, upsertVector_fuel.
  rewrite !(bind_Ok client_ready _ w (pineconeClient w) w) by done.
  by rewrite Hclient.
Qed.

Lemma querySimilarVectors_no_client v topK w :
  pineconeClient w = false ->
  querySimilarVectors v topK w
  = (Throw (JsError (lit "Pinecone client not initialized.")), w).
Proof.
  intros Hclient. unfold querySimilarVectors.
  rewrite !(bind_Ok client_ready _ w (pineconeClient w) w) by done.
  by rewrite Hclient.
Qed.

(** X10. On a client that has not been initialised, the three operations
    of the adapter throw before any call is made. *)
Theorem store_needs_client id v metadata topK w :
  pineconeClient w = false ->
  vectorExists id w
  = (Throw (JsError (lit "Pinecone client not initialized. Call initializePinecone() first.")), w)
  /\ upsertVector id v metadata w
     = (Throw (JsError (lit "Pinecone client not initialized. Call initializePinecone() first.")), w)
  /\ querySimilarVectors v topK w
     = (Throw (JsError (lit "Pinecone client not initialized.")), w).
Proof.
  intros Hclient.
  split; [|split;
           [by apply upsertVector_no_client
           | by apply querySimilarVectors_no_client]].
  unfold vectorExists.
  rewrite !(bind_Ok client_ready _ w (pineconeClient w) w) by done.
  by rewrite Hclient.
Qed.

Lemma index_upsert_trace r w :
  trace (index_upsert r w).2 = trace w ++ [EvIndexUpsert r].
Proof. unfold index_upsert. by destruct (next _ _) as [[]]. Qed.

(** The three shapes of a run of the retry loop. *)
Lemma upsert_loop_calls r w :
  let x := upsert_loop 3 r 0 None w in
  let U := EvIndexUpsert r in
  (x.1 = Ok Returned /\ trace x.2 = trace w ++ [U])
  \/ (x.1 = Ok Returned /\ trace x.2 = trace w ++ [U; EvSetTimeout 2000; U])
  \/ ((x.1 = Ok Returned \/ exists e, x.1 = Ok (Fallthrough (Some e)))
      /\ trace x.2
         = trace w ++ [U; EvSetTimeout 2000; U; EvSetTimeout 4000; U]).
Proof.
  cbv zeta. rewrite upsert_loop_step by done.
  pose proof (index_upsert_trace r w) as H1.
  destruct (index_upsert r w) as [[[]|e1] w1]; simpl in H1; [by left|].
  change (0 + 1 <=? MAX_RETRIES) with true. cbv iota.
  rewrite upsert_loop_step by done.
  match goal with
  | |- context [index_upsert r ?w'] =>
      pose proof (index_upsert_trace r w') as H2;
      destruct (index_upsert r w') as [[[]|e2] w2]
  end; simpl in H2; rewrite H1 in H2.
  { right. left. split; [done|]. simpl. by rewrite H2, <- !app_assoc. }
  change (0 + 1 + 1 <=? MAX_RETRIES) with true. cbv iota.
  rewrite upsert_loop_step by done.
  match goal with
  | |- context [index_upsert r ?w'] =>
      pose proof (index_upsert_trace r w') as H3;
      destruct (index_upsert r w') as [[[]|e3] w3]
  end; simpl in H3; rewrite H2 in H3.
  - right. right. split; [by left|]. simpl. by rewrite H3, <- !app_assoc.
  - right. right. change (0 + 1 + 1 + 1 <=? MAX_RETRIES) with false.
    cbv iota. split; [right; by eexists|].
    simpl. by rewrite H3, <- !app_assoc.
Qed.

(** X11. Whatever the store does, the calls [upsertVector] makes are one
    of five sequences: none (no client); the lookup alone (the id is
    there); the lookup and one, two or three writes of the same record,
    with a delay of 2000 ms before the second write and of 4000 ms before
    the third.  There is never a fourth write. *)
Theorem upsertVector_calls id v metadata w :
  let F := EvIndexFetch id in
  let U := EvIndexUpsert (mkRecord id v metadata) in
  exists evs,
    trace (upsertVector id v metadata w).2 = trace w ++ evs
    /\ evs ∈ [ [];
               [F];
               [F; U];
               [F; U; EvSetTimeout 2000; U];
               [F; U; EvSetTimeout 2000; U; EvSetTimeout 4000; U] ].
Proof.
  cbv zeta. destruct (pineconeClient w) eqn:Hclient.
  - destruct (vectorExists_run id w Hclient) as (w0 & Hexists & Htrace & _).
    destruct (match (next (fetch_faults w) None).1 with
              | Some _ => false
              | None => bool_decide (is_Some (index w !! id))
              end) eqn:Hb.
    + exists [EvIndexFetch id]. split; [|set_solver].
      unfold upsertVector, upsertVector_fuel.
      rewrite (bind_Ok client_ready _ w (pineconeClient w) w) by done.
      rewrite Hclient. change (negb true) with false. cbv iota.
      by rewrite (bind_Ok _ _ _ _ _ Hexists).
    + rewrite (upsertVector_absent _ _ _ _ _ Hclient Hexists).
      destruct (upsert_loop_calls (mkRecord id v metadata) w0)
        as [[Hx Ht]|[[Hx Ht]|[Hx Ht]]];
        cbv zeta in Hx, Ht;
        destruct (upsert_loop 3 _ 0 None w0) as [[[]|e] w1];
        simpl in Hx, Ht; try done;
        try (destruct Hx as [Hx|[e' Hx]]; try done);
        eexists; (split; [simpl; rewrite Ht, Htrace, <- app_assoc; done|]);
        set_solver.
  - exists []. split; [|set_solver].
    rewrite (upsertVector_no_client _ _ _ _ Hclient).
    by rewrite app_nil_r.
Qed.

(** What the loop leaves in the index. *)
Lemma upsert_loop_index fuel r n le w :
  let x := upsert_loop fuel r n le w in
  pineconeClient x.2 = pineconeClient w
  /\ ((x.1 = Ok Returned /\ index x.2 = <[r_id r := r]> (index w))
      \/ (x.1 <> Ok Returned /\ index x.2 = index w)).
Proof.
  cbv zeta. revert n le w.
  induction fuel as [|fuel IH]; intros n le w.
  - simpl. destruct (negb (n <=? MAX_RETRIES)); simpl; by (split; [|right]).
  - destruct (Z_lt_le_dec MAX_RETRIES n) as [Hlt|Hle].
    { rewrite upsert_loop_done by done. simpl. by (split; [|right]). }
    rewrite upsert_loop_step by done. unfold index_upsert.
    destruct (next (upsert_faults w) None) as [[e|] rest]; simpl.
    + destruct (n + 1 <=? MAX_RETRIES); [|simpl; by (split; [|right])].
      match goal with
      | |- context [upsert_loop fuel r (n + 1) (Some e) ?w'] =>
          destruct (IH (n + 1) (Some e) w') as [Hc Hi]
      end.
      done.
    + split; [done|]. by left.
Qed.

(** What [upsertVector] leaves in the index. *)
Lemma upsertVector_index_cases id v metadata w :
  let r := upsertVector id v metadata w in
  pineconeClient r.2 = pineconeClient w
  /\ ((index r.2 = index w /\ (r.1 = Ok tt -> is_Some (index w !! id)))
      \/ (r.1 = Ok tt
          /\ index r.2 = <[id := mkRecord id v metadata]> (index w))).
Proof.
  cbv zeta. destruct (pineconeClient w) eqn:Hclient.
  - destruct (vectorExists_run id w Hclient)
      as (w0 & Hexists & _ & Hindex & Hclient0).
    destruct (match (next (fetch_faults w) None).1 with
              | Some _ => false
              | None => bool_decide (is_Some (index w !! id))
              end) eqn:Hb.
    + assert (Hrun : upsertVector id v metadata w = (Ok tt, w0)).
      { unfold upsertVector, upsertVector_fuel.
        rewrite (bind_Ok client_ready _ w (pineconeClient w) w) by done.
        rewrite Hclient. change (negb true) with false. cbv iota.
        by rewrite (bind_Ok _ _ _ _ _ Hexists). }
      rewrite Hrun. simpl. split; [congruence|]. left. split; [done|].
      intros _. destruct (next (fetch_faults w) None).1; [done|].
      by apply bool_decide_eq_true in Hb.
    + rewrite (upsertVector_absent _ _ _ _ _ Hclient Hexists).
      destruct (upsert_loop_index 3 (mkRecord id v metadata) 0 None w0)
        as [Hc [[Hx Hi]|[Hx Hi]]];
        destruct (upsert_loop 3 _ 0 None w0) as [[[]|e] w1];
        simpl in Hc, Hx, Hi; simpl; try done;
        (split; [congruence|]).
      * right. split; [done|]. by rewrite Hi, Hindex.
      * left. split; [congruence | done].
      * left. split; [congruence | done].
      * left. split; [congruence | done].
  - rewrite (upsertVector_no_client _ _ _ _ Hclient). simpl.
    split; [done|]. by left.
Qed.

(** X12. Whatever the store does, [upsertVector] touches no id but its
    own, and under its own id it either leaves what was there or puts the
    record it was given.  When it returns normally the id is in the
    index. *)
Theorem upsertVector_index id v metadata w :
  let r := upsertVector id v metadata w in
  (forall j, j <> id -> index r.2 !! j = index w !! j)
  /\ (index r.2 !! id = index w !! id
      \/ index r.2 !! id = Some (mkRecord id v metadata))
  /\ match r.1 with
     | Ok _ => is_Some (index r.2 !! id)
     | Throw _ => index r.2 = index w
     end.
Proof.
  cbv zeta.
  destruct (upsertVector_index_cases id v metadata w)
    as [_ [[Hi Hp]|[Hok Hi]]]; cbv zeta in *.
  - split; [intros j _; by rewrite Hi|]. split; [left; by rewrite Hi|].
    destruct (upsertVector id v metadata w) as [[[]|e] w']; simpl in *.
    + rewrite Hi. by apply Hp.
    + done.
  - split; [intros j Hj; by rewrite Hi, lookup_insert_ne|].
    split; [right; by rewrite Hi, lookup_insert_eq|].
    rewrite Hok, Hi, lookup_insert_eq. by eexists.
Qed.

(** X13. Insert then look up: on an initialised client with no faults
    scripted, upserting an id that is absent stores the record under that
    id, [vectorExists] then answers [true], and a later upsert of the same
    id with other data leaves the stored record as it is. *)
Theorem upsert_then_exists id v metadata w :
  pineconeClient w = true ->
  index w !! id = None ->
  fetch_faults w = [] ->
  upsert_faults w = [] ->
  exists w1 w2,
    upsertVector id v metadata w = (Ok tt, w1)
    /\ index w1 = <[id := mkRecord id v metadata]> (index w)
    /\ trace w1
       = trace w ++ [EvIndexFetch id; EvIndexUpsert (mkRecord id v metadata)]
    /\ vectorExists id w1 = (Ok true, w2)
    /\ forall v' metadata',
         exists w3,
           upsertVector id v' metadata' w2 = (Ok tt, w3)
           /\ index w3 !! id = Some (mkRecord id v metadata).
Proof.
  intros Hclient Habsent Hff Huf.
  destruct w as [c cache idx n t em ff uf q tr]. simpl in *. subst c ff uf.
  eexists _, _. split.
  { rewrite (upsertVector_absent _ _ _ _
               (mkWorld true cache idx n t em [] [] q (tr ++ [EvIndexFetch id])));
      [|done|].
    - rewrite upsert_loop_step by done. reflexivity.
    - unfold vectorExists, try_catch, mbind, M_bind, bind, index_fetch.
      simpl. by rewrite Habsent. }
  simpl. split; [done|]. split; [by rewrite <- app_assoc|]. split.
  { unfold vectorExists, try_catch, mbind, M_bind, bind, index_fetch.
    simpl. by rewrite lookup_insert_eq. }
  intros v' metadata'. eexists. split.
  { unfold upsertVector, upsertVector_fuel, vectorExists, try_catch,
      mbind, M_bind, bind, index_fetch.
    simpl. rewrite lookup_insert_eq. reflexivity. }
  simpl. by rewrite lookup_insert_eq.
Qed.

Lemma index_query_trace v k w :
  trace (index_query v k w).2 = trace w ++ [EvIndexQuery v k].
Proof. unfold index_query. by destruct (next _ _). Qed.

Lemma mapped_sources_shape (matches : list ScoredVector) :
  Forall (fun s => is_Some (content s) /\ title s <> [])
    (omap (fun m =>
             metadata ← m_metadata m;
             Some {|
               title := or_default (a_title metadata) (lit "Unknown Title");
               url := or_default (a_url metadata) [];
               date := or_default (a_date metadata) [];
               content := Some (or_default (a_content metadata) []) |})
          matches).
Proof.
  induction matches as [|m ms IH]; simpl; [constructor|].
  destruct (m_metadata m) as [a|]; simpl; [|done].
  constructor; [|done]. simpl. split; [by eexists|].
  unfold or_default. by destruct (a_title a).
Qed.

Lemma querySimilarVectors_run v k w :
  pineconeClient w = true ->
  querySimilarVectors v k w
  = match index_query v k w with
    | (Ok None, w') | (Ok (Some []), w') => (Ok [], w')
    | (Ok (Some matches), w') =>
        (Ok (omap (fun m =>
                     metadata ← m_metadata m;
                     Some {|
                       title := or_default (a_title metadata) (lit "Unknown Title");
                       url := or_default (a_url metadata) [];
                       date := or_default (a_date metadata) [];
                       content := Some (or_default (a_content metadata) []) |})
                  matches), w')
    | (Throw e, w') =>
        (Throw (JsError (lit "Pinecone query failed: "
                         ++ message_or_string e)), w')
    end.
Proof.
  intros Hclient. unfold querySimilarVectors.
  rewrite (bind_Ok client_ready _ w (pineconeClient w) w) by done.
  rewrite Hclient. change (negb true) with false. cbv iota.
  unfold try_catch, mbind, M_bind, bind.
  by destruct (index_query v k w) as [[[[|m ms]|]|e] w'].
Qed.

Lemma querySimilarVectors_ok_trace v k w found w' :
  querySimilarVectors v k w = (Ok found, w') ->
  trace w' = trace w ++ [EvIndexQuery v k].
Proof.
  destruct (pineconeClient w) eqn:Hclient.
  - rewrite (querySimilarVectors_run _ _ _ Hclient).
    pose proof (index_query_trace v k w) as Htrace.
    destruct (index_query v k w) as [[[[|m ms]|]|e] w0]; simpl in Htrace;
      by intros [= <- <-].
  - by rewrite (querySimilarVectors_no_client _ _ _ Hclient).
Qed.

(** X14. [querySimilarVectors] makes at most one call, the query itself.
    Every source it returns has a content member and a title that is not
    empty.  What it throws is an [Error]: the missing client, before any
    call, or the store's failure under the stage label. *)
Theorem querySimilarVectors_sources v k w :
  match querySimilarVectors v k w with
  | (Ok found, w') =>
      pineconeClient w = true
      /\ trace w' = trace w ++ [EvIndexQuery v k]
      /\ Forall (fun s => is_Some (content s) /\ title s <> []) found
  | (Throw e, w') =>
      (pineconeClient w = false /\ w' = w
       /\ e = JsError (lit "Pinecone client not initialized."))
      \/ (trace w' = trace w ++ [EvIndexQuery v k]
          /\ exists m, e = JsError (lit "Pinecone query failed: " ++ m))
  end.
Proof.
  destruct (pineconeClient w) eqn:Hclient.
  - rewrite (querySimilarVectors_run _ _ _ Hclient).
    pose proof (index_query_trace v k w) as Htrace.
    destruct (index_query v k w) as [[[[|m ms]|]|e] w']; simpl in Htrace.
    + split; [done|]. split; [done|]. constructor.
    + split; [done|]. split; [done|]. apply mapped_sources_shape.
    + split; [done|]. split; [done|]. constructor.
    + right. split; [done|]. by eexists.
  - rewrite (querySimilarVectors_no_client _ _ _ Hclient). by left.
Qed.

(** ** Queries, continued *)

Section Queries.

Context {P : Platform}.

(** Frames of the query path. *)

Lemma fetch_grew ok u : ok (EvFetch u) -> keeps (grew_by ok) (fetch u).
Proof. intros Hok w. by apply (grew_by_one _ (EvFetch u)), fetch_trace. Qed.

Lemma generateContent_grew (ok : Event -> Prop) j p :
  ok (EvGenerateContent j p) ->
  keeps (grew_by ok) (textModel_generateContent j p).
Proof.
  intros Hok w.
  by apply (grew_by_one _ (EvGenerateContent j p)), generateContent_trace.
Qed.

Lemma embedContent_grew (ok : Event -> Prop) t :
  ok (EvEmbedContent t) -> keeps (grew_by ok) (embedModel_embedContent t).
Proof.
  intros Hok w. apply (grew_by_one _ (EvEmbedContent t)); [done|].
  unfold embedModel_embedContent. by destruct (next _ _).
Qed.

Lemma index_query_grew (ok : Event -> Prop) v k :
  ok (EvIndexQuery v k) -> keeps (grew_by ok) (index_query v k).
Proof.
  intros Hok w.
  by apply (grew_by_one _ (EvIndexQuery v k)), index_query_trace.
Qed.

Lemma index_query_same_store v k : keeps same_store (index_query v k).
Proof. intros w. unfold index_query. by destruct (next _ _). Qed.

#[local] Hint Resolve index_query_same_store : frame.
#[local] Hint Extern 1 (keeps (grew_by _) (fetch _)) =>
  apply fetch_grew; exact I : frame.
#[local] Hint Extern 1 (keeps (grew_by _) (textModel_generateContent _ _)) =>
  apply generateContent_grew; exact I : frame.
#[local] Hint Extern 1 (keeps (grew_by _) (embedModel_embedContent _)) =>
  apply embedContent_grew; exact I : frame.
#[local] Hint Extern 1 (keeps (grew_by _) (index_query _ _)) =>
  apply index_query_grew; exact I : frame.

Lemma handleUrlQuery_same_store u : keeps same_store (handleUrlQuery u).
Proof.
  unfold handleUrlQuery, processUrl, fetchUrlContent, cleanAndStructureHtml,
    generateEmbeddings, generateText.
  frame.
Qed.

Lemma handleUrlQuery_same_cache u : keeps same_cache (handleUrlQuery u).
Proof.
  unfold handleUrlQuery, processUrl, fetchUrlContent, cleanAndStructureHtml,
    generateEmbeddings, generateText.
  frame.
Qed.

Lemma handleUrlQuery_grew u : keeps (grew_by is_page_call) (handleUrlQuery u).
Proof.
  unfold handleUrlQuery, processUrl, fetchUrlContent, cleanAndStructureHtml,
    generateEmbeddings, generateText.
  frame.
Qed.

Lemma handleKnowledgeBaseQuery_same_store q :
  keeps same_store (handleKnowledgeBaseQuery q).
Proof.
  unfold handleKnowledgeBaseQuery, querySimilarVectors, generateEmbeddings,
    generateText.
  frame.
Qed.

Lemma handleKnowledgeBaseQuery_same_cache q :
  keeps same_cache (handleKnowledgeBaseQuery q).
Proof.
  unfold handleKnowledgeBaseQuery, querySimilarVectors, generateEmbeddings,
    generateText.
  frame.
Qed.

Lemma handleKnowledgeBaseQuery_grew q :
  keeps (grew_by is_retrieval_call) (handleKnowledgeBaseQuery q).
Proof.
  unfold handleKnowledgeBaseQuery, querySimilarVectors, generateEmbeddings,
    generateText.
  frame.
Qed.

(** X15. A query changes nothing the process keeps: the index, the client
    and the dedup cache are as before.  A query that is a URL calls only
    the page, the text model and the embedding model; any other query
    calls only the embedding model, the similarity search and the text
    model in plain mode. *)
Theorem handleQuery_read_only payload w :
  let w' := (handleQuery payload w).2 in
  read_only w w'
  /\ (if isValidUrl (query payload) then grew_by is_page_call w w'
      else grew_by is_retrieval_call w w').
Proof.
  cbv zeta. unfold handleQuery, handleQuery_with. cbv zeta.
  destruct (isValidUrl (query payload)).
  - split; [split|].
    + apply (keeps_try_catch same_store); [apply handleUrlQuery_same_store|].
      intros e. apply keeps_ret; tc_solve.
    + apply (keeps_try_catch same_cache); [apply handleUrlQuery_same_cache|].
      intros e. apply keeps_ret; tc_solve.
    + apply (keeps_try_catch (grew_by is_page_call));
        [apply handleUrlQuery_grew|].
      intros e. apply keeps_ret; tc_solve.
  - split; [split|].
    + apply (keeps_try_catch same_store);
        [apply handleKnowledgeBaseQuery_same_store|].
      intros e. apply keeps_ret; tc_solve.
    + apply (keeps_try_catch same_cache);
        [apply handleKnowledgeBaseQuery_same_cache|].
      intros e. apply keeps_ret; tc_solve.
    + apply (keeps_try_catch (grew_by is_retrieval_call));
        [apply handleKnowledgeBaseQuery_grew|].
      intros e. apply keeps_ret; tc_solve.
Qed.

Lemma handleQuery_url u w :
  isValidUrl u = true ->
  handleQuery {| query := u |} w
  = match handleUrlQuery u w with
    | (Ok response, w') => (Ok response, w')
    | (Throw _, w') => (Ok generic_fallback, w')
    end.
Proof.
  intros Hu. unfold handleQuery, handleQuery_with. simpl query. rewrite Hu.
  unfold try_catch at 1. by destruct (handleUrlQuery u w) as [[r|e] w'].
Qed.

Lemma handleQuery_knowledge q w :
  isValidUrl q = false ->
  handleQuery {| query := q |} w
  = match handleKnowledgeBaseQuery q w with
    | (Ok response, w') => (Ok response, w')
    | (Throw _, w') => (Ok generic_fallback, w')
    end.
Proof.
  intros Hq. unfold handleQuery, handleQuery_with. simpl query. rewrite Hq.
  unfold try_catch at 1.
  by destruct (handleKnowledgeBaseQuery q w) as [[r|e] w'].
Qed.

(** X16. A query that is a URL from which nothing can be extracted -- the
    page cannot be fetched, is empty, cannot be structured, or its
    embedding fails -- is answered with the fixed text about that, and no
    sources. *)
Theorem handleQuery_unprocessable_url u w w1 :
  isValidUrl u = true ->
  processUrl u w = (Ok None, w1) ->
  handleQuery {| query := u |} w
  = (Ok {| answer := lit "I couldn't process this URL. It may be inaccessible or doesn't contain extractable content.";
           sources := [] |}, w1).
Proof.
  intros Hu Hproc. rewrite (handleQuery_url _ _ Hu).
  unfold handleUrlQuery.
  erewrite try_catch_Ok; [done|]. by rewrite (bind_Ok _ _ _ _ _ Hproc).
Qed.

(** X17. A query that is a URL whose article is extracted and summarised
    is answered with the model's text and one source: the article's
    title, the queried address and the article's date, without content.
    The one call after extraction is the summary prompt of that article. *)
Theorem handleQuery_url_answer u w a v w1 text w2 :
  isValidUrl u = true ->
  processUrl u w = (Ok (Some (a, v)), w1) ->
  generateText (summary_prompt a) w1 = (Ok text, w2) ->
  handleQuery {| query := u |} w
  = (Ok {| answer := text;
           sources := [mkSource (a_title a) u (a_date a) None] |}, w2)
  /\ trace w2 = trace w1 ++ [EvGenerateContent false (summary_prompt a)].
Proof.
  intros Hu Hproc Hgen.
  destruct (processUrl_some _ _ _ _ _ Hproc) as (_ & Hurl & _).
  split.
  - rewrite (handleQuery_url _ _ Hu). unfold handleUrlQuery.
    erewrite try_catch_Ok; [done|].
    rewrite (bind_Ok _ _ _ _ _ Hproc). cbv iota zeta.
    rewrite (bind_Ok _ _ _ _ _ Hgen). by rewrite Hurl.
  - pose proof (generateText_run (summary_prompt a) w1) as Hrun.
    pose proof (generateContent_trace false (summary_prompt a) w1) as Ht.
    rewrite Hgen in Hrun.
    destruct (textModel_generateContent false _ w1) as [[t|e] w']; [|done].
    by injection Hrun as -> ->.
Qed.

(** X18. A query that is not a URL and whose embedding fails is answered
    with a fixed text and no sources, and the index is not queried.  When
    the embedding succeeds and the similarity search fails, the answer is
    another fixed text, again with no sources. *)
Theorem handleQuery_retrieval_failures q w :
  isValidUrl q = false ->
  match generateEmbeddings q w with
  | (Throw _, w1) =>
      handleQuery {| query := q |} w
      = (Ok {| answer := lit "encountered an error while processing your query.";
               sources := [] |}, w1)
      /\ exists submitted, trace w1 = trace w ++ [EvEmbedContent submitted]
  | (Ok queryVector, w1) =>
      match querySimilarVectors queryVector 1 w1 with
      | (Throw _, w2) =>
          handleQuery {| query := q |} w
          = (Ok {| answer := lit "couldn't search our knowledge base at the moment.";
                   sources := [] |}, w2)
      | (Ok _, _) => True
      end
  end.
Proof.
  intros Hq. rewrite (handleQuery_knowledge _ _ Hq).
  unfold handleKnowledgeBaseQuery.
  pose proof (generateEmbeddings_trace q w) as Htrace.
  destruct (generateEmbeddings q w) as [[qv|e] w1] eqn:Hembed.
  - destruct (querySimilarVectors qv 1 w1) as [[found|e] w2] eqn:Hsearch;
      [done|].
    erewrite try_catch_Ok; [done|].
    erewrite bind_Ok by (apply attempt_run, Hembed). cbv beta iota.
    by erewrite bind_Ok by (apply attempt_run, Hsearch).
  - split; [|by eexists].
    erewrite try_catch_Ok; [done|].
    by erewrite bind_Ok by (apply attempt_run, Hembed).
Qed.

(** X19. A query that is not a URL, for which sources are found and an
    answer is generated, is answered with the model's text and one source
    per source found, in the same order, each with the title, address and
    date found and without content.  The search asks for the single
    nearest record. *)
Theorem handleQuery_retrieval_answer q w queryVector w1 s ss w2 text w3 :
  isValidUrl q = false ->
  generateEmbeddings q w = (Ok queryVector, w1) ->
  querySimilarVectors queryVector 1 w1 = (Ok (s :: ss), w2) ->
  generateText
    (grounding_prompt q (join (lit "

") (imap source_context (s :: ss)))) w2 = (Ok text, w3) ->
  exists returned,
    handleQuery {| query := q |} w
    = (Ok {| answer := text; sources := returned |}, w3)
    /\ Forall2 (fun found given =>
                  title given = title found
                  /\ url given = url found
                  /\ date given = date found
                  /\ content given = None)
         (s :: ss) returned
    /\ trace w2 = trace w1 ++ [EvIndexQuery queryVector 1].
Proof.
  intros Hq Hembed Hsearch Hgen.
  exists (cleaned <$> (s :: ss)). split; [|split].
  - rewrite (handleQuery_knowledge _ _ Hq). unfold handleKnowledgeBaseQuery.
    erewrite try_catch_Ok; [done|].
    erewrite bind_Ok by (apply attempt_run, Hembed). cbv beta iota.
    erewrite bind_Ok by (apply attempt_run, Hsearch). cbv beta iota zeta.
    apply try_catch_Ok. by rewrite (bind_Ok _ _ _ _ _ Hgen).
  - apply Forall2_fmap_r, Forall_Forall2_diag, Forall_true. done.
  - by apply (querySimilarVectors_ok_trace _ _ _ _ _ Hsearch).
Qed.

End Queries.

(** ** Ingestion, continued *)

Section Consumer.

Context {P : Platform}.

Lemma handleUrlIngestion_invalid u w :
  isValidUrl u = false -> handleUrlIngestion u w = (Ok tt, w).
Proof.
  intros Hu. unfold handleUrlIngestion. rewrite Hu.
  by rewrite orb_true_r.
Qed.

(** X20. The only errors [handleUrlIngestion] throws are failures of the
    write to the store, as an [Error] labelled with both stages; failures
    of fetching, structuring and embedding end in a normal return.  An
    address that is not a valid URL returns at once, nothing called. *)
Theorem handleUrlIngestion_outcome u w :
  match handleUrlIngestion u w with
  | (Ok _, w') => isValidUrl u = false -> w' = w
  | (Throw e, w') =>
      isValidUrl u = true
      /\ exists v a w1 storageError,
           processUrl u w = (Ok (Some (a, v)), w1)
           /\ upsertVector u v a w1 = (Throw storageError, w')
           /\ e = JsError (lit "URL processing failed: "
                           ++ lit "Vector storage failed: "
                           ++ message_or_string storageError)
  end.
Proof.
  destruct (isValidUrl u) eqn:Hu.
  - rewrite (handleUrlIngestion_run _ _ Hu).
    destruct (processUrl_total u w) as (r & w1 & Hproc). rewrite Hproc.
    destruct r as [[a v]|]; [|done].
    destruct (upsertVector u v a w1) as [[[]|e] w2] eqn:Hup; [done|].
    split; [done|]. by eexists v, a, w1, e.
  - rewrite (handleUrlIngestion_invalid _ _ Hu). done.
Qed.

(** X21. When an article has been extracted and [handleUrlIngestion]
    returns normally, the address is in the index.  If it was not there
    before, what is stored under it is the extracted article with its
    vector; no other id is touched. *)
Theorem handleUrlIngestion_stores u w a v w1 w2 :
  isValidUrl u = true ->
  processUrl u w = (Ok (Some (a, v)), w1) ->
  handleUrlIngestion u w = (Ok tt, w2) ->
  is_Some (index w2 !! u)
  /\ (index w !! u = None -> index w2 !! u = Some (mkRecord u v a))
  /\ (forall j, j <> u -> index w2 !! j = index w !! j).
Proof.
  intros Hu Hproc Hrun.
  rewrite (handleUrlIngestion_run _ _ Hu), Hproc in Hrun.
  pose proof (processUrl_same_store u w) as [Hsame _].
  rewrite Hproc in Hsame. simpl in Hsame.
  destruct (upsertVector_index_cases u v a w1) as [_ Hcases].
  cbv zeta in Hcases.
  destruct (upsertVector u v a w1) as [[[]|e] w'] eqn:Hup; [|done].
  injection Hrun as <-. simpl in Hcases. rewrite Hsame in Hcases.
  destruct Hcases as [[Hi Hp]|[_ Hi]]; rewrite Hi.
  - split; [by apply Hp|]. split; [|done].
    intros Hnone. destruct (Hp eq_refl) as [x Hx]. congruence.
  - split; [rewrite lookup_insert_eq; by eexists|].
    split; [intros _; by rewrite lookup_insert_eq|].
    intros j Hj. by rewrite lookup_insert_ne.
Qed.

(** A delivery that is not skipped makes the calls of an ingestion. *)
Lemma fresh_delivery_trace message messageStr w :
  km_value message = Some messageStr ->
  message_url messageStr ∉ recentlyProcessedUrls w ->
  trace (handleKafkaMessage message w).2
  = trace (handleUrlIngestion (message_url messageStr) w).2.
Proof.
  intros Hvalue Hfresh.
  rewrite (handleKafkaMessage_fresh _ _ _ Hvalue Hfresh).
  destruct (handleUrlIngestion _ w) as [[[]|e] w1]; [|done].
  unfold remember. cbv zeta. by destruct (MAX_CACHE_SIZE <? _).
Qed.

Lemma remember_size u w :
  (size (recentlyProcessedUrls (remember u w)) <= 1000)%nat.
Proof.
  unfold remember. cbv zeta. simpl recentlyProcessedUrls.
  destruct (Z.ltb_spec MAX_CACHE_SIZE
              (Z.of_nat (size ({[u]} ∪ recentlyProcessedUrls w)))) as [H|H];
    cbn [recentlyProcessedUrls set_cache].
  - rewrite size_empty. lia.
  - unfold MAX_CACHE_SIZE in H. lia.
Qed.

(** X22. [handleKafkaMessage] never throws, whatever the message and
    whatever the remote services do: an error of the ingestion is
    swallowed.  A message without a value, or whose address is in the
    cache, changes nothing. *)
Theorem handleKafkaMessage_never_throws message w :
  exists w',
    handleKafkaMessage message w = (Ok tt, w')
    /\ (km_value message = None -> w' = w)
    /\ match km_value message with
       | Some messageStr =>
           message_url messageStr ∈ recentlyProcessedUrls w -> w' = w
       | None => True
       end.
Proof.
  destruct (km_value message) as [messageStr|] eqn:Hvalue.
  - destruct (decide (message_url messageStr ∈ recentlyProcessedUrls w))
      as [Hseen|Hfresh].
    + exists w. by rewrite (handleKafkaMessage_skip _ _ _ Hvalue Hseen).
    + rewrite (handleKafkaMessage_fresh _ _ _ Hvalue Hfresh).
      destruct (handleUrlIngestion _ w) as [[[]|e] w1];
        eexists; (split; [done|]); by split.
  - exists w. unfold handleKafkaMessage. rewrite Hvalue. by split.
Qed.

(** X23. The dedup cache never outgrows its cap: if it holds at most 1000
    addresses before a message is handled, it holds at most 1000 after. *)
Theorem handleKafkaMessage_cache_bounded message w :
  (size (recentlyProcessedUrls w) <= 1000)%nat ->
  (size (recentlyProcessedUrls (handleKafkaMessage message w).2) <= 1000)%nat.
Proof.
  intros Hsize.
  destruct (km_value message) as [messageStr|] eqn:Hvalue.
  - destruct (decide (message_url messageStr ∈ recentlyProcessedUrls w))
      as [Hseen|Hfresh].
    + by rewrite (handleKafkaMessage_skip _ _ _ Hvalue Hseen).
    + rewrite (handleKafkaMessage_fresh _ _ _ Hvalue Hfresh).
      pose proof (handleUrlIngestion_same_cache (message_url messageStr) w)
        as Hcache.
      unfold same_cache in Hcache.
      destruct (handleUrlIngestion _ w) as [[[]|e] w1]; simpl in *.
      * apply remember_size.
      * by rewrite Hcache.
  - unfold handleKafkaMessage. by rewrite Hvalue.
Qed.

(** X24. At the cap the cache is emptied, the new address with it: when
    the cache holds exactly 1000 addresses and the ingestion of a new one
    returns, the cache is empty afterwards, so that an immediate second
    delivery of the same message is ingested again. *)
Theorem handleKafkaMessage_at_cap message messageStr w w1 :
  km_value message = Some messageStr ->
  let u := message_url messageStr in
  u ∉ recentlyProcessedUrls w ->
  size (recentlyProcessedUrls w) = 1000%nat ->
  handleUrlIngestion u w = (Ok tt, w1) ->
  exists w2,
    handleKafkaMessage message w = (Ok tt, w2)
    /\ recentlyProcessedUrls w2 = ∅
    /\ trace (handleKafkaMessage message w2).2
       = trace (handleUrlIngestion u w2).2.
Proof.
  intros Hvalue u Hfresh Hsize Hingest.
  pose proof (handleUrlIngestion_same_cache u w) as Hcache.
  unfold same_cache in Hcache. rewrite Hingest in Hcache. simpl in Hcache.
  assert (Hempty : recentlyProcessedUrls (remember u w1) = ∅).
  { apply remember_at_cap; rewrite Hcache; [done|].
    unfold MAX_CACHE_SIZE. lia. }
  exists (remember u w1).
  rewrite (handleKafkaMessage_fresh _ _ _ Hvalue Hfresh). fold u.
  rewrite Hingest. split; [done|]. split; [done|].
  apply (fresh_delivery_trace _ messageStr); [done|].
  rewrite Hempty. apply not_elem_of_empty.
Qed.

(** X25. The expiry timer empties the cache and does nothing else; the
    next delivery of any message with a value, cached before or not, is
    ingested. *)
Theorem cacheExpiryTick_reopens message messageStr w :
  km_value message = Some messageStr ->
  let w' := (cacheExpiryTick w).2 in
  (cacheExpiryTick w).1 = Ok tt
  /\ recentlyProcessedUrls w' = ∅
  /\ trace w' = trace w
  /\ index w' = index w
  /\ trace (handleKafkaMessage message w').2
     = trace (handleUrlIngestion (message_url messageStr) w').2.
Proof.
  intros Hvalue. cbv zeta.
  destruct (cacheExpiryTick_clears w) as [Hok Hempty].
  split; [done|]. split; [done|].
  assert (Hsame : trace (cacheExpiryTick w).2 = trace w
                  /\ index (cacheExpiryTick w).2 = index w).
  { unfold cacheExpiryTick, mbind, M_bind, bind, cache_size, cache_clear.
    by destruct (0 <? _). }
  destruct Hsame as [Ht Hi]. split; [done|]. split; [done|].
  apply (fresh_delivery_trace _ messageStr); [done|].
  rewrite Hempty. apply not_elem_of_empty.
Qed.

(** X26. A message whose text is not a valid URL causes no call at all,
    and yet its text is put in the dedup cache like an ingested
    address. *)
Theorem handleKafkaMessage_invalid_text message messageStr w :
  km_value message = Some messageStr ->
  let u := message_url messageStr in
  isValidUrl u = false ->
  u ∉ recentlyProcessedUrls w ->
  handleKafkaMessage message w = (Ok tt, remember u w)
  /\ trace (remember u w) = trace w
  /\ index (remember u w) = index w
  /\ ((size (recentlyProcessedUrls w) < 1000)%nat ->
      u ∈ recentlyProcessedUrls (remember u w)).
Proof.
  intros Hvalue u Hu Hfresh.
  rewrite (handleKafkaMessage_fresh _ _ _ Hvalue Hfresh). fold u.
  rewrite (handleUrlIngestion_invalid _ _ Hu).
  split; [done|].
  unfold remember. cbv zeta. simpl recentlyProcessedUrls.
  destruct (Z.ltb_spec MAX_CACHE_SIZE
              (Z.of_nat (size ({[u]} ∪ recentlyProcessedUrls w)))) as [H|H];
    simpl.
  - split; [done|]. split; [done|]. intros Hsize.
    rewrite size_union in H by set_solver. rewrite size_singleton in H.
    unfold MAX_CACHE_SIZE in H. lia.
  - split; [done|]. split; [done|]. intros _. set_solver.
Qed.

(** A delivery of a text that is not a URL, at the cap. *)
Lemma invalid_text_at_cap message messageStr w :
  km_value message = Some messageStr ->
  isValidUrl (message_url messageStr) = false ->
  message_url messageStr ∉ recentlyProcessedUrls w ->
  size (recentlyProcessedUrls w) = 1000%nat ->
  recentlyProcessedUrls (handleKafkaMessage message w).2 = ∅.
Proof.
  intros Hvalue Hu Hfresh Hsize.
  rewrite (handleKafkaMessage_fresh _ _ _ Hvalue Hfresh).
  rewrite (handleUrlIngestion_invalid _ _ Hu). cbn [snd].
  apply remember_at_cap; [done|]. rewrite Hsize. reflexivity.
Qed.

End Consumer.

(** ** More runs on concrete worlds *)

Module MoreRuns.

Import Demo.

Lemma truncateString_bounded_witness :
  jslength (truncateString (lit "abcdefgh") 5) <= 5 + 3
  /\ substring0 5 (truncateString (lit "abcdefgh") 5)
     = substring0 5 (lit "abcdefgh")
  /\ truncateString (lit "abcdefgh") 5 = lit "abcde...".
Proof.
  destruct (truncateString_bounded (lit "abcdefgh") 5)
    as (Hlen & Hprefix & _ & Hlong); [lia|].
  split; [exact Hlen|]. split; [exact Hprefix|].
  destruct Hlong as [-> _]; [vm_compute; reflexivity|].
  vm_compute. reflexivity.
Defined.

Lemma vectorExists_result_witness :
  (exists w', vectorExists article_url lookup_down = (Ok false, w'))
  /\ (exists w', vectorExists article_url ingested = (Ok true, w')).
Proof.
  split.
  - destruct (vectorExists_result article_url lookup_down)
      as (b & w' & Hrun & _ & _ & Hb); [reflexivity|].
    exists w'. rewrite Hrun, Hb. reflexivity.
  - destruct (vectorExists_result article_url ingested)
      as (b & w' & Hrun & _ & _ & Hb); [reflexivity|].
    exists w'. rewrite Hrun, Hb. simpl.
    rewrite bool_decide_eq_true_2; [done|].
    exists stored. apply lookup_singleton_eq.
Defined.

Lemma store_needs_client_witness :
  upsertVector article_url some_vector article no_client
  = (Throw (JsError (lit "Pinecone client not initialized. Call initializePinecone() first.")),
     no_client).
Proof.
  destruct (store_needs_client article_url some_vector article 1 no_client)
    as (_ & Hupsert & _); [reflexivity|].
  exact Hupsert.
Defined.

Lemma upsert_then_exists_witness :
  exists w1 w2,
    upsertVector article_url some_vector article started = (Ok tt, w1)
    /\ index w1 !! article_url = Some stored
    /\ vectorExists article_url w1 = (Ok true, w2).
Proof.
  destruct (upsert_then_exists article_url some_vector article started)
    as (w1 & w2 & Hrun & Hindex & _ & Hexists & _); try reflexivity.
  exists w1, w2. split; [exact Hrun|]. split; [|exact Hexists].
  rewrite Hindex. apply lookup_insert_eq.
Defined.

Lemma handleQuery_unprocessable_url_witness :
  exists w1,
    handleQuery (P := platform) {| query := article_url |} started
    = (Ok {| answer := lit "I couldn't process this URL. It may be inaccessible or doesn't contain extractable content.";
             sources := [] |}, w1).
Proof.
  eexists.
  eapply (handleQuery_unprocessable_url (P := platform) article_url started).
  - vm_compute. reflexivity.
  - vm_compute. reflexivity.
Defined.

Lemma handleQuery_url_answer_witness :
  (handleQuery (P := platform) {| query := article_url |} all_up).1
  = Ok {| answer := lit "A summary.";
          sources := [mkSource (lit "A") article_url (lit "2024-01-01") None] |}.
Proof.
  destruct (handleQuery_url_answer (P := platform) article_url all_up
              article some_vector
              (processUrl (P := platform) article_url all_up).2
              (lit "A summary.")
              (handleQuery (P := platform) {| query := article_url |} all_up).2)
    as [Hrun _].
  - vm_compute. reflexivity.
  - vm_compute. reflexivity.
  - vm_compute. reflexivity.
  - rewrite Hrun. reflexivity.
Defined.

Lemma handleQuery_retrieval_failures_witness :
  (handleQuery (P := platform) {| query := question |} kb_embedding_down).1
  = Ok {| answer := lit "encountered an error while processing your query.";
          sources := [] |}
  /\ (handleQuery (P := platform) {| query := question |} kb_search_down).1
     = Ok {| answer := lit "couldn't search our knowledge base at the moment.";
             sources := [] |}.
Proof.
  split.
  - pose proof (handleQuery_retrieval_failures (P := platform) question
                  kb_embedding_down) as H.
    change (generateEmbeddings question kb_embedding_down)
      with (@Throw vector
              (JsError (lit "Gemini embedding generation failed: "
                        ++ message_or_unknown outage)),
            (generateEmbeddings question kb_embedding_down).2) in H.
    destruct H as [-> _]; [vm_compute; reflexivity|]. reflexivity.
  - pose proof (handleQuery_retrieval_failures (P := platform) question
                  kb_search_down) as H.
    change (generateEmbeddings question kb_search_down)
      with (Ok some_vector, (generateEmbeddings question kb_search_down).2)
      in H.
    cbv beta iota in H.
    change (querySimilarVectors some_vector 1
              (generateEmbeddings question kb_search_down).2)
      with (@Throw (list Source)
              (JsError (lit "Pinecone query failed: "
                        ++ message_or_string outage)),
            (querySimilarVectors some_vector 1
               (generateEmbeddings question kb_search_down).2).2) in H.
    rewrite H; [reflexivity | vm_compute; reflexivity].
Defined.

Lemma handleQuery_retrieval_answer_witness :
  exists w3,
    handleQuery (P := platform) {| query := question |} kb_answered
    = (Ok {| answer := lit "An answer.";
             sources := [mkSource (lit "A") article_url (lit "2024-01-01") None] |},
       w3).
Proof.
  destruct (handleQuery_retrieval_answer (P := platform) question kb_answered
              some_vector
              (generateEmbeddings question kb_answered).2
              (mkSource (lit "A") article_url (lit "2024-01-01") (Some (lit "B")))
              []
              (querySimilarVectors some_vector 1
                 (generateEmbeddings question kb_answered).2).2
              (lit "An answer.")
              (handleQuery (P := platform) {| query := question |} kb_answered).2)
    as (returned & Hrun & Hshape & _).
  - vm_compute. reflexivity.
  - vm_compute. reflexivity.
  - vm_compute. reflexivity.
  - vm_compute. reflexivity.
  - eexists. rewrite Hrun. f_equal. f_equal. f_equal.
    apply Forall2_cons_inv_l in Hshape
      as (given & rest & (Ht & Hu & Hd & Hc) & Hrest & ->).
    apply Forall2_nil_inv_l in Hrest as ->.
    destruct given as [t u d c]. simpl in *. by subst.
Defined.

Lemma handleUrlIngestion_stores_witness :
  index (handleUrlIngestion (P := platform) article_url all_up).2 !! article_url
  = Some stored.
Proof.
  destruct (handleUrlIngestion_stores (P := platform) article_url all_up
              article some_vector
              (processUrl (P := platform) article_url all_up).2
              (handleUrlIngestion (P := platform) article_url all_up).2)
    as (_ & Hstored & _).
  - vm_compute. reflexivity.
  - vm_compute. reflexivity.
  - vm_compute. reflexivity.
  - apply Hstored. apply lookup_empty.
Defined.

Lemma full_cache_size : size full_cache = 1000%nat.
Proof.
  unfold full_cache. rewrite size_list_to_set.
  - by rewrite length_fmap, length_seq.
  - apply NoDup_fmap_2; [|apply NoDup_seq].
    intros n m [= H]. lia.
Qed.

Lemma full_cache_fresh : lit "not a url" ∉ full_cache.
Proof.
  unfold full_cache. rewrite elem_of_list_to_set, list_elem_of_fmap.
  intros (n & H & _). vm_compute in H. discriminate.
Qed.

Lemma text_message_url :
  message_url (P := platform) (lit "not a url") = lit "not a url".
Proof. vm_compute. reflexivity. Qed.

Lemma text_not_url : isValidUrl (P := platform) (lit "not a url") = false.
Proof. vm_compute. reflexivity. Qed.

(** A delivery that ingests and adds to the cache, and one that adds at
    the cap and clears. *)
Lemma handleKafkaMessage_cache_bounded_witness :
  (recentlyProcessedUrls all_up = ∅
   /\ recentlyProcessedUrls
        (handleKafkaMessage (P := platform) envelope_message all_up).2
      = {[article_url]}
   /\ (size (recentlyProcessedUrls
               (handleKafkaMessage (P := platform) envelope_message all_up).2)
       <= 1000)%nat)
  /\ (size (recentlyProcessedUrls at_cap) = 1000%nat
      /\ recentlyProcessedUrls
           (handleKafkaMessage (P := platform) text_message at_cap).2
         = ∅
      /\ (size (recentlyProcessedUrls
                  (handleKafkaMessage (P := platform) text_message at_cap).2)
          <= 1000)%nat).
Proof.
  split.
  - split; [reflexivity|]. split.
    + rewrite (handleKafkaMessage_fresh (P := platform) envelope_message
                 (envelope_doc article_url) all_up);
        [|reflexivity
         |rewrite Runs.envelope_message_url;
          change (recentlyProcessedUrls all_up) with (∅ : gset jsstring);
          apply not_elem_of_empty].
      rewrite Runs.envelope_message_url.
      pose proof (handleUrlIngestion_same_cache (P := platform)
                    article_url all_up) as Hcache.
      unfold same_cache in Hcache.
      change (recentlyProcessedUrls all_up) with (∅ : gset jsstring) in Hcache.
      assert (Hok : (handleUrlIngestion (P := platform) article_url all_up).1
                    = Ok tt) by (vm_compute; reflexivity).
      destruct (handleUrlIngestion (P := platform) article_url all_up)
        as [[[]|e] w1]; [|discriminate Hok].
      simpl in Hcache. unfold remember. cbv zeta.
      cbn [recentlyProcessedUrls set_cache snd]. rewrite Hcache.
      rewrite (right_id_L ∅ (∪)), size_singleton.
      change (MAX_CACHE_SIZE <? Z.of_nat 1) with false. cbv iota.
      cbn [recentlyProcessedUrls set_cache]. reflexivity.
    + apply (handleKafkaMessage_cache_bounded (P := platform)).
      change (recentlyProcessedUrls all_up) with (∅ : gset jsstring).
      rewrite size_empty. lia.
  - split; [exact full_cache_size|]. split.
    + apply (invalid_text_at_cap (P := platform) text_message
               (lit "not a url")).
      * reflexivity.
      * rewrite text_message_url. exact text_not_url.
      * rewrite text_message_url. exact full_cache_fresh.
      * exact full_cache_size.
    + apply (handleKafkaMessage_cache_bounded (P := platform)).
      change (recentlyProcessedUrls at_cap) with full_cache.
      rewrite full_cache_size. lia.
Defined.

Lemma handleKafkaMessage_at_cap_witness :
  exists w2,
    handleKafkaMessage (P := platform) text_message at_cap = (Ok tt, w2)
    /\ recentlyProcessedUrls w2 = ∅
    /\ trace (handleKafkaMessage (P := platform) text_message w2).2
       = trace (handleUrlIngestion (P := platform) (lit "not a url") w2).2.
Proof.
  destruct (handleKafkaMessage_at_cap (P := platform) text_message
              (lit "not a url") at_cap at_cap)
    as (w2 & Hrun & Hempty & Hagain).
  - reflexivity.
  - rewrite text_message_url. exact full_cache_fresh.
  - exact full_cache_size.
  - rewrite text_message_url.
    apply (handleUrlIngestion_invalid (P := platform)), text_not_url.
  - exists w2. rewrite text_message_url in Hagain.
    split; [exact Hrun|]. split; [exact Hempty | exact Hagain].
Defined.

Lemma cacheExpiryTick_reopens_witness :
  recentlyProcessedUrls (cacheExpiryTick cached).2 = ∅
  /\ trace (handleKafkaMessage (P := platform) raw_message
              (cacheExpiryTick cached).2).2
     = [EvFetch article_url;
        EvGenerateContent true
          (structuring_prompt (lit "<html><h1>A</h1><p>B</p></html>"));
        EvEmbedContent (lit "A. B");
        EvIndexFetch article_url;
        EvIndexUpsert stored].
Proof.
  destruct (cacheExpiryTick_reopens (P := platform) raw_message article_url
              cached) as (_ & Hempty & _ & _ & Hagain); [reflexivity|].
  split; [exact Hempty|].
  rewrite Hagain, Runs.raw_message_url. vm_compute. reflexivity.
Defined.

Lemma handleKafkaMessage_invalid_text_witness :
  exists w',
    handleKafkaMessage (P := platform) text_message started = (Ok tt, w')
    /\ trace w' = []
    /\ lit "not a url" ∈ recentlyProcessedUrls w'.
Proof.
  destruct (handleKafkaMessage_invalid_text (P := platform) text_message
              (lit "not a url") started) as (Hrun & Htrace & _ & Hin).
  - reflexivity.
  - rewrite text_message_url. vm_compute. reflexivity.
  - rewrite text_message_url. simpl. set_solver.
  - rewrite text_message_url in Hrun, Htrace, Hin.
    eexists. split; [exact Hrun|]. split; [exact Htrace|].
    apply Hin.
    change (recentlyProcessedUrls started) with (∅ : gset jsstring).
    rewrite size_empty. lia.
Defined.


End MoreRuns.

(** ** The endpoint *)

Section Endpoint.

Context {P : Platform}.

(** X3. [POST /api/agent] is answered 500 exactly when the body parser
    rejects the request: the error handler replies, nothing is called, and
    the error's message is sent along outside production only.  Once the
    body is parsed the router's own 500 branch is never taken: a body the
    middleware rejects is answered 400 without any call being made, any
    other body 200 with the response of [handleQuery] to the trimmed
    query. *)
Theorem serveAgent_replies isProduction request w :
  match request with
  | BodyRejected err =>
      serveAgent isProduction request w
      = (Ok (FromErrorHandler 500 (lit "Internal Server Error")
               (if isProduction then None else error_message err)), w)
  | BodyObject q =>
      match validateQueryPayload q with
      | inl reply =>
          serveAgent isProduction request w = (Ok (FromRouter reply), w)
          /\ reply_status reply = 400
      | inr payload =>
          exists response w',
            handleQuery payload w = (Ok response, w')
            /\ serveAgent isProduction request w
               = (Ok (FromRouter
                        {| reply_status := 200;
                           reply_body := AnswerReply response |}), w')
      end
  end.
Proof.
  destruct request as [err|q].
  - simpl. unfold errorHandler. by destruct isProduction.
  - pose proof (postAgent_replies q w) as Hchain. simpl.
    destruct (validateQueryPayload q) as [reply|payload].
    + destruct Hchain as [Hrun H400]. split; [|done].
      by rewrite (bind_Ok _ _ _ _ _ Hrun).
    + destruct Hchain as (response & w' & Hquery & Hrun).
      exists response, w'. split; [done|].
      by rewrite (bind_Ok _ _ _ _ _ Hrun).
Qed.

End Endpoint.
